(** * Wide_Table.py: splitting a wide table into LaTeX sub-tables

    A shallow embedding of [Wide_Table.py] and the properties of its
    partitioning arithmetic and of its line-oriented text insertion.

    Python integers are [Z]; a [str] is a [string] (a sequence of bytes, the
    newline being the byte 10, which never occurs inside a multi-byte UTF-8
    character, so splitting at it agrees with Python's splitting of the
    decoded text); a [list] is a [list]; a [pandas.DataFrame] is the list of
    its columns, which is all the module looks at ([len(table.columns)] and
    [table.iloc[:, a:b]]).  An exception is an explicit [Raise] result. *)

From Stdlib Require Import ZArith List String Ascii Bool Lia.
Import ListNotations.

Open Scope string_scope.
Open Scope list_scope.
Open Scope Z_scope.

(** ** The Python built-ins the module uses *)

Module Py.

(** The exceptions the module's code can raise: [divmod] by zero, the
    subscript [top_rule[0]] on an empty list, and [list.insert] with an index
    that does not fit a machine index. *)
Inductive exn : Type :=
| ZeroDivisionError
| IndexError
| OverflowError.

Inductive result (A : Type) : Type :=
| Ok (value : A)
| Raise (e : exn).

Arguments Ok {A} value.
Arguments Raise {A} e.

Definition bind {A B : Type} (m : result A) (k : A -> result B) : result B :=
  match m with
  | Ok a => k a
  | Raise e => Raise e
  end.

(** A [for] loop whose body may raise: the loop state is threaded through the
    items in order and the first exception leaves the loop. *)
Fixpoint for_each {S X : Type} (items : list X) (body : S -> X -> result S)
    (state : S) : result S :=
  match items with
  | [] => Ok state
  | x :: rest => bind (body state x) (for_each rest body)
  end.

(** [divmod(a, b)]: floor division, the remainder has the divisor's sign. *)
Definition divmod (a b : Z) : result (Z * Z) :=
  if b =? 0 then Raise ZeroDivisionError else Ok (a / b, a mod b).

(** [range(n)]: empty when [n <= 0]. *)
Definition range (n : Z) : list Z :=
  map Z.of_nat (seq 0 (Z.to_nat n)).

(** [enumerate(items)]. *)
Definition enumerate {X : Type} (items : list X) : list (Z * X) :=
  combine (range (Z.of_nat (List.length items))) items.

(** How a slice bound or an insertion index is brought into [0..len]: a
    negative index counts from the end, and what is still out of range is
    clipped. *)
Definition clip (len i : Z) : Z :=
  if i <? 0 then Z.max (i + len) 0 else Z.min i len.

(** [l[start:stop]]. *)
Definition slice {X : Type} (l : list X) (start stop : Z) : list X :=
  let len := Z.of_nat (List.length l) in
  let lo := clip len start in
  let hi := clip len stop in
  firstn (Z.to_nat (hi - lo)) (skipn (Z.to_nat lo) l).

(** [l[start:]]. *)
Definition slice_from {X : Type} (l : list X) (start : Z) : list X :=
  skipn (Z.to_nat (clip (Z.of_nat (List.length l)) start)) l.

(** [l[i]]. *)
Definition getitem {X : Type} (l : list X) (i : Z) : result X :=
  let len := Z.of_nat (List.length l) in
  let j := if i <? 0 then i + len else i in
  if (j <? 0) || (len <=? j) then Raise IndexError
  else match nth_error l (Z.to_nat j) with
       | Some x => Ok x
       | None => Raise IndexError
       end.

(** The machine index type [Py_ssize_t] of a 64-bit CPython:
    [ssize_t_max] is [sys.maxsize]. *)
Definition ssize_t_min : Z := - 2 ^ 63.
Definition ssize_t_max : Z := 2 ^ 63 - 1.

(** Where [l.insert(i, x)] puts the item: at the index [i] brought into
    [0..len]. *)
Definition place {X : Type} (l : list X) (i : Z) (x : X) : list X :=
  let k := Z.to_nat (clip (Z.of_nat (List.length l)) i) in
  firstn k l ++ x :: skipn k l.

(** [l.insert(i, x)], as the new value of [l].  The index is first made a
    machine index, which raises [OverflowError] when it lies outside
    [ssize_t_min..ssize_t_max]; then it is clipped.  (A list is never longer
    than [sys.maxsize], so an index up to the length always fits: the
    [Z.max] says so for the lists of this model, whose length is not
    bounded.) *)
Definition insert {X : Type} (l : list X) (i : Z) (x : X) : result (list X) :=
  let len := Z.of_nat (List.length l) in
  if (i <? ssize_t_min) || (Z.max ssize_t_max len <? i) then Raise OverflowError
  else Ok (place l i x).

(** [s.split(sep)] for a one-character separator: never an empty list. *)
Fixpoint split (sep : ascii) (s : string) : list string :=
  match s with
  | EmptyString => [EmptyString]
  | String c rest =>
      if Ascii.eqb c sep then EmptyString :: split sep rest
      else match split sep rest with
           | first :: others => String c first :: others
           | [] => [String c EmptyString]
           end
  end.

(** [sep.join(items)]. *)
Definition join (sep : string) (items : list string) : string :=
  String.concat sep items.

(** [s.endswith(c)] for a one-character [c]. *)
Fixpoint endswith (s : string) (c : ascii) : bool :=
  match s with
  | EmptyString => false
  | String a EmptyString => Ascii.eqb a c
  | String _ rest => endswith rest c
  end.

End Py.

Import Py.

Notation "x <- m ;; k" := (bind m (fun x => k))
  (at level 61, m at next level, right associativity).
Notation "' pat <- m ;; k" := (bind m (fun v => match v with pat => k end))
  (at level 61, pat pattern, m at next level, right associativity).

(** The newline character and the one-character string ["\n"]. *)
Definition LF : ascii := "010"%char.
Definition NL : string := String LF EmptyString.

(** ** The module *)

Section WideTable.

(** A column of a data frame (its name and its values); the module never
    looks inside one. *)
Context {column : Type}.

Definition DataFrame : Type := list column.

(** [DataFrame.to_latex] is pandas' code, not this module's: the rendering
    is whatever function the caller's pandas provides. *)
Variable to_latex : DataFrame -> string.

(** [generate_subtables(table, no_cols)]. *)
Definition generate_subtables (table : DataFrame) (no_cols : Z)
    : result (list DataFrame) :=
  let cols := Z.of_nat (List.length table) in
  '(no_subtables, remainder) <- divmod cols no_cols ;;
  let end_table := slice_from table (- remainder) in
  let subtables :=
    fold_left
      (fun subtables x =>
         subtables ++ [slice table (x * no_cols) (no_cols * (x + 1))])
      (range no_subtables) [] in
  let subtables := subtables ++ [end_table] in
  Ok subtables.

(** [latex_subtables(subtables)]. *)
Definition latex_subtables (subtables : list DataFrame) : list string :=
  map to_latex subtables.

(** [wrap_table(latex_tables, container)]. *)
Definition wrap_table (latex_tables : list string) (container : string)
    : list string :=
  map (fun lt =>
         ("\begin{" ++ container ++ "}" ++ NL ++ lt
          ++ "\end{" ++ container ++ "}" ++ NL)%string)
      latex_tables.

(** [insert_command(latex_tables, command, row)]. *)
Definition insert_command (latex_tables : list string) (command : string)
    (row : Z) : result (list string) :=
  for_each latex_tables
    (fun latex_table_new sub_table =>
       let row_split := split LF sub_table in
       let top_rule :=
         filter (fun i => String.eqb (nth (Z.to_nat i) row_split "") "\toprule")
                (range (Z.of_nat (List.length row_split))) in
       t0 <- getitem top_rule 0 ;;
       row_split <- insert row_split (t0 + row) command ;;
       let st_new := join NL row_split in
       Ok (latex_table_new ++ [st_new]))
    [].

(** [combine_subtables(latex_tables)]. *)
Definition combine_subtables (latex_tables : list string) : string :=
  let new_page := map (fun lt => ("\newpage" ++ NL ++ lt)%string) latex_tables in
  join "" new_page.

(** [wide_table(table, no_cols, landscape, center, midrules)]; [midrules]
    is [None] or a list. *)
Definition wide_table (table : DataFrame) (no_cols : Z)
    (landscape center : bool) (midrules : option (list Z)) : result string :=
  subtables <- generate_subtables table no_cols ;;
  let latex_tables := latex_subtables subtables in
  latex_tables <-
    (if center then
       let latex_tables := wrap_table latex_tables "table" in
       insert_command latex_tables "\centering" 0
     else Ok latex_tables) ;;
  let latex_tables :=
    if landscape then wrap_table latex_tables "landscape" else latex_tables in
  let midrules := match midrules with None => [] | Some m => m end in
  latex_tables <-
    for_each (enumerate midrules)
      (fun latex_tables '(count, mr) =>
         insert_command latex_tables "\midrule" (mr + count))
      latex_tables ;;
  let combined := combine_subtables latex_tables in
  Ok combined.

End WideTable.

(** ** Vocabulary of the properties *)

(** The lines of a block of text, as [insert_command] sees them, and the
    text a sequence of lines makes. *)
Definition lines (block : string) : list string := split LF block.
Definition unlines (ls : list string) : string := join NL ls.

(** A string that holds no newline: a single line. *)
Fixpoint single_line (s : string) : bool :=
  match s with
  | EmptyString => true
  | String c rest => negb (Ascii.eqb c LF) && single_line rest
  end.

(** The position of the first line equal to [x]. *)
Fixpoint first_index (x : string) (ls : list string) : option nat :=
  match ls with
  | [] => None
  | l :: rest =>
      if String.eqb l x then Some 0%nat
      else option_map S (first_index x rest)
  end.

(** The top-rule marker of the rendered markup, and a block that has it. *)
Definition toprule : string := "\toprule".
Definition has_toprule (block : string) : Prop := In toprule (lines block).

(** [before] are the lines of a block above its first marker line and
    [after] the lines below it. *)
Definition first_marker (block : string) (before after : list string) : Prop :=
  lines block = before ++ toprule :: after /\ ~ In toprule before.

(** An index that [list.insert] takes for a list of [len] items: a machine
    index (an index up to the length is one, see [insert]). *)
Definition index_fits (len i : Z) : Prop :=
  ssize_t_min <= i <= Z.max ssize_t_max len.

(** A row that [insert_command] can use on a block: the position of the
    block's first marker plus the row is an index that [list.insert] takes. *)
Definition row_fits (row : Z) (block : string) : Prop :=
  forall t, first_index toprule (lines block) = Some t ->
            index_fits (Z.of_nat (List.length (lines block))) (Z.of_nat t + row).

(** A block one of whose lines is the marker followed by a newline. *)
Definition toprule_line_ended (block : string) : Prop :=
  In toprule (removelast (lines block)).

(** Such a block of at most [B] lines. *)
Definition ended_within (B : Z) (block : string) : Prop :=
  toprule_line_ended block /\ Z.of_nat (List.length (lines block)) <= B.

(** Mid-rule offsets that stay machine indexes in blocks rendered with at
    most [N] lines: the containers and the directives add at most
    [5 + len(midrules)] lines, and the [k]-th offset is used with [k] added
    to it. *)
Definition offsets_fit (N : Z) (midrules : list Z) : Prop :=
  Forall (fun m => ssize_t_min <= m
                   /\ m + N + 2 * Z.of_nat (List.length midrules) + 5
                      <= ssize_t_max)
         midrules.

(** Columns [a, b) of a table, for [0 <= a <= b <= len]. *)
Definition columns {column : Type} (table : list column) (a b : Z)
    : list column :=
  firstn (Z.to_nat (b - a)) (skipn (Z.to_nat a) table).

(** The number of columns of a table, [len(table.columns)]. *)
Definition cols {column : Type} (table : list column) : Z :=
  Z.of_nat (List.length table).

(** The full-width partitions: columns [x * no_cols, (x + 1) * no_cols) for
    [x] from 0 up to [no_subtables]. *)
Definition full_partitions {column : Type} (table : list column)
    (no_cols no_subtables : Z) : list (list column) :=
  map (fun x => columns table (x * no_cols) ((x + 1) * no_cols))
      (range no_subtables).

(** What the loop of [insert_command] makes of one block, told by the
    position of the block's first marker line ([insert_command_cons] below
    relates the two). *)
Definition insert_in_block (command : string) (row : Z) (sub_table : string)
    : result string :=
  match first_index toprule (lines sub_table) with
  | None => Raise IndexError
  | Some t =>
      row_split <- insert (lines sub_table) (Z.of_nat t + row) command ;;
      Ok (unlines row_split)
  end.

(** The directives [wrap_table] writes around a block. *)
Definition begin_ (container : string) : string :=
  ("\begin{" ++ container ++ "}")%string.
Definition end_ (container : string) : string :=
  ("\end{" ++ container ++ "}")%string.

(** The landscape container opens above the table container. *)
Definition landscape_outside_table (block : string) : Prop :=
  exists i j,
    first_index (begin_ "landscape") (lines block) = Some i
    /\ first_index (begin_ "table") (lines block) = Some j
    /\ (i < j)%nat.

(** The blocks one after the other, each after a page-break directive on a
    line of its own, with nothing between them. *)
Fixpoint page_broken (blocks : list string) : string :=
  match blocks with
  | [] => ""
  | block :: rest => ("\newpage" ++ NL ++ block ++ page_broken rest)%string
  end.

(** The mid-rule loop of [wide_table] on its own. *)
Definition insert_midrules (latex_tables : list string) (midrules : list Z)
    : result (list string) :=
  for_each (enumerate midrules)
    (fun latex_tables '(count, mr) =>
       insert_command latex_tables "\midrule" (mr + count))
    latex_tables.

(** The blocks [wide_table] hands to [combine_subtables]: its body up to the
    end of the mid-rule loop. *)
Definition decorated_blocks {column : Type} (to_latex : list column -> string)
    (table : list column) (no_cols : Z) (landscape center : bool)
    (midrules : option (list Z)) : result (list string) :=
  subtables <- generate_subtables table no_cols ;;
  let latex_tables := latex_subtables to_latex subtables in
  latex_tables <-
    (if center then
       insert_command (wrap_table latex_tables "table") "\centering" 0
     else Ok latex_tables) ;;
  let latex_tables :=
    if landscape then wrap_table latex_tables "landscape" else latex_tables in
  let midrules := match midrules with None => [] | Some m => m end in
  insert_midrules latex_tables midrules.

(** A toy rendering and tables for the concrete instances below. *)
Definition render_nat (cols : list nat) : string :=
  ("\begin{tabular}" ++ NL ++ "\toprule" ++ NL ++ "head" ++ NL ++ "\midrule"
   ++ NL ++ "row" ++ NL ++ "\bottomrule" ++ NL ++ "\end{tabular}" ++ NL)%string.
Definition cols10 : list nat := [0; 1; 2; 3; 4; 5; 6; 7; 8; 9]%nat.
Definition cols8 : list nat := [0; 1; 2; 3; 4; 5; 6; 7]%nat.
Definition cols5 : list nat := [0; 1; 2; 3; 4]%nat.

(** * Facts about the built-ins *)

(** The built-ins at the corners the module reaches. *)

Example divmod_negative_divisor : divmod 10 (-3) = Ok (-4, -2).
Proof. reflexivity. Qed.

Example range_negative : range (-4) = [].
Proof. reflexivity. Qed.

Example slice_from_minus_zero : slice_from [1; 2; 3] (- 0) = [1; 2; 3].
Proof. reflexivity. Qed.

Example slice_from_minus_two : slice_from [1; 2; 3] (- 2) = [2; 3].
Proof. reflexivity. Qed.

Example slice_past_the_end : slice [1; 2; 3] 2 4 = [3].
Proof. reflexivity. Qed.

Example insert_past_the_end : insert [1; 2; 3] 7 0 = Ok [1; 2; 3; 0].
Proof. reflexivity. Qed.

Example insert_negative_index : insert [1; 2; 3] (-1) 0 = Ok [1; 2; 0; 3].
Proof. reflexivity. Qed.

Example insert_largest_index : insert [1; 2; 3] (2 ^ 63 - 1) 0 = Ok [1; 2; 3; 0].
Proof. reflexivity. Qed.

Example insert_smallest_index : insert [1; 2; 3] (- 2 ^ 63) 0 = Ok [0; 1; 2; 3].
Proof. reflexivity. Qed.

Example insert_index_too_large : insert [1; 2; 3] (2 ^ 63) 0 = Raise OverflowError.
Proof. reflexivity. Qed.

Example insert_index_too_small :
  insert [1; 2; 3] (- 2 ^ 63 - 1) 0 = Raise OverflowError.
Proof. reflexivity. Qed.

Example getitem_empty : getitem (@nil Z) 0 = Raise IndexError.
Proof. reflexivity. Qed.

Example split_trailing_newline :
  split LF ("a" ++ NL ++ NL ++ "b" ++ NL)%string = ["a"; ""; "b"; ""].
Proof. reflexivity. Qed.

Example join_lines : join NL ["a"; ""; "b"] = ("a" ++ NL ++ NL ++ "b")%string.
Proof. reflexivity. Qed.

Section ListFacts.

Context {X : Type}.

Lemma range_of_nat (n : nat) : range (Z.of_nat n) = map Z.of_nat (seq 0 n).
Proof. unfold range. now rewrite Nat2Z.id. Qed.

Lemma range_nonpos (n : Z) : n <= 0 -> range n = [].
Proof.
  intros Hn. unfold range.
  replace (Z.to_nat n) with 0%nat by lia. reflexivity.
Qed.

Lemma length_range (n : Z) : List.length (range n) = Z.to_nat n.
Proof. unfold range. now rewrite length_map, length_seq. Qed.

(** The accumulating loop [for x in xs: acc.append(f(x))] is a [map]. *)
Lemma append_loop_map {Y : Type} (f : Y -> X) (xs : list Y) (acc : list X) :
  fold_left (fun acc x => acc ++ [f x]) xs acc = acc ++ map f xs.
Proof.
  revert acc. induction xs as [|x xs IH]; intros acc; simpl.
  - now rewrite app_nil_r.
  - rewrite IH, <- app_assoc. reflexivity.
Qed.

Lemma clip_range (len i : Z) : 0 <= len -> 0 <= clip len i <= len.
Proof. unfold clip. destruct (i <? 0) eqn:E; lia. Qed.

Lemma clip_inside (len i : Z) : 0 <= i <= len -> clip len i = i.
Proof. unfold clip. destruct (i <? 0) eqn:E; lia. Qed.

(** A slice with bounds [0 <= a <= b] is the columns [a, b), also when the
    bounds pass the end of the list. *)
Lemma slice_columns (l : list X) (a b : Z) :
  0 <= a <= b -> slice l a b = columns l a b.
Proof.
  intros H. unfold slice, columns, clip.
  assert (Ha : (a <? 0) = false) by lia.
  assert (Hb : (b <? 0) = false) by lia.
  rewrite Ha, Hb.
  set (len := Z.of_nat (List.length l)).
  destruct (Z.le_gt_cases len a) as [Hla|Hla].
  - rewrite !skipn_all2 by lia. now rewrite !firstn_nil.
  - replace (Z.min a len) with a by lia.
    destruct (Z.le_gt_cases b len) as [Hlb|Hlb].
    + now replace (Z.min b len) with b by lia.
    + replace (Z.min b len) with len by lia.
      rewrite !firstn_all2; try reflexivity; rewrite length_skipn; lia.
Qed.

Lemma slice_from_nonneg (l : list X) (a : Z) :
  0 <= a -> slice_from l a = skipn (Z.to_nat a) l.
Proof.
  intros H. unfold slice_from, clip.
  assert (Ha : (a <? 0) = false) by lia. rewrite Ha.
  destruct (Z.le_gt_cases (Z.of_nat (List.length l)) a) as [Hl|Hl].
  - rewrite !skipn_all2 by lia. reflexivity.
  - f_equal. lia.
Qed.

(** [l[-r:]] for [0 < r <= len] is the last [r] items. *)
Lemma slice_from_last (l : list X) (r : Z) :
  0 < r <= Z.of_nat (List.length l) ->
  slice_from l (- r) = columns l (Z.of_nat (List.length l) - r)
                               (Z.of_nat (List.length l)).
Proof.
  intros H. unfold slice_from, columns, clip.
  assert (Hr : (- r <? 0) = true) by lia. rewrite Hr.
  replace (Z.max (- r + Z.of_nat (List.length l)) 0)
    with (Z.of_nat (List.length l) - r) by lia.
  rewrite firstn_all2; [reflexivity|]. rewrite length_skipn. lia.
Qed.

Lemma length_columns (l : list X) (a b : Z) :
  0 <= a <= b -> b <= Z.of_nat (List.length l) ->
  List.length (columns l a b) = Z.to_nat (b - a).
Proof.
  intros H Hb. unfold columns. rewrite length_firstn, length_skipn. lia.
Qed.

(** [columns l a b] holds the items of [l] at the positions [a, b). *)
Lemma nth_error_columns (l : list X) (a b : Z) (i : nat) :
  0 <= a -> (i < Z.to_nat (b - a))%nat ->
  nth_error (columns l a b) i = nth_error l (Z.to_nat a + i).
Proof.
  intros Ha Hi. unfold columns.
  rewrite nth_error_firstn.
  destruct (Nat.ltb_spec i (Z.to_nat (b - a))); [|lia].
  apply nth_error_skipn.
Qed.

Lemma place_inside (l : list X) (i : Z) (x : X) :
  0 <= i <= Z.of_nat (List.length l) ->
  place l i x = firstn (Z.to_nat i) l ++ x :: skipn (Z.to_nat i) l.
Proof. intros H. unfold place. now rewrite clip_inside. Qed.

(** Wherever the index lies, the item is put at some position of the list
    and the rest is kept as it is. *)
Lemma place_somewhere (l : list X) (i : Z) (x : X) :
  exists k, (k <= List.length l)%nat /\ place l i x = firstn k l ++ x :: skipn k l.
Proof.
  unfold place.
  exists (Z.to_nat (clip (Z.of_nat (List.length l)) i)). split; [|reflexivity].
  pose proof (clip_range (Z.of_nat (List.length l)) i). lia.
Qed.

(** [insert] returns exactly for the indexes that fit, and then what
    [place] gives. *)
Lemma insert_fits (l : list X) (i : Z) (x : X) :
  index_fits (Z.of_nat (List.length l)) i -> insert l i x = Ok (place l i x).
Proof.
  unfold index_fits, insert. intros H.
  destruct (i <? ssize_t_min) eqn:E1; [lia|].
  destruct (Z.max ssize_t_max (Z.of_nat (List.length l)) <? i) eqn:E2; [lia|].
  reflexivity.
Qed.

Lemma insert_Ok (l l' : list X) (i : Z) (x : X) :
  insert l i x = Ok l' <->
  index_fits (Z.of_nat (List.length l)) i /\ l' = place l i x.
Proof.
  split.
  - unfold index_fits, insert.
    destruct (i <? ssize_t_min) eqn:E1; [discriminate|].
    destruct (Z.max ssize_t_max (Z.of_nat (List.length l)) <? i) eqn:E2;
      [discriminate|].
    simpl. intros [= <-]. split; [lia|reflexivity].
  - intros [H ->]. now apply insert_fits.
Qed.

Lemma insert_Raise (l : list X) (i : Z) (x : X) (e : exn) :
  insert l i x = Raise e -> e = OverflowError.
Proof.
  unfold insert. destruct (_ || _); [now intros [= <-]|discriminate].
Qed.

Lemma index_fits_inside (len i : Z) : 0 <= i <= len -> index_fits len i.
Proof. unfold index_fits, ssize_t_min. lia. Qed.

Lemma index_fits_ssize (len i : Z) :
  ssize_t_min <= i <= ssize_t_max -> index_fits len i.
Proof. unfold index_fits. lia. Qed.

End ListFacts.

(** * Facts about lines *)

Lemma append_assoc (a b c : string) : ((a ++ b) ++ c = a ++ (b ++ c))%string.
Proof. induction a as [|ch a IH]; simpl; [reflexivity|now rewrite IH]. Qed.

Lemma append_empty_r (a : string) : (a ++ "")%string = a.
Proof. induction a as [|ch a IH]; simpl; [reflexivity|now rewrite IH]. Qed.

Lemma lines_not_nil (s : string) : lines s <> [].
Proof.
  unfold lines. destruct s as [|c s]; simpl; [discriminate|].
  destruct (Ascii.eqb c LF); [discriminate|].
  destruct (split LF s); discriminate.
Qed.

Lemma lines_cons (c : ascii) (s : string) :
  lines (String c s) =
  if Ascii.eqb c LF then "" :: lines s
  else String c (hd "" (lines s)) :: tl (lines s).
Proof.
  unfold lines. simpl. destruct (Ascii.eqb c LF); [reflexivity|].
  pose proof (lines_not_nil s) as Hn. unfold lines in Hn.
  destruct (split LF s); [contradiction|reflexivity].
Qed.

(** Joining the lines of a text gives the text back. *)
Lemma unlines_lines (s : string) : unlines (lines s) = s.
Proof.
  induction s as [|c s IH]; [reflexivity|].
  rewrite lines_cons.
  pose proof (lines_not_nil s) as Hn.
  destruct (lines s) as [|l ls] eqn:E; [contradiction|].
  destruct (Ascii.eqb_spec c LF) as [->|Hc].
  - unfold unlines, join in *. simpl in *. now rewrite IH.
  - unfold unlines, join in *. simpl in *.
    destruct ls; simpl in *; now rewrite <- IH.
Qed.

(** No line of a text holds a newline. *)
Lemma lines_single_line (s : string) :
  Forall (fun l => single_line l = true) (lines s).
Proof.
  induction s as [|c s IH]; [repeat constructor|].
  rewrite lines_cons.
  pose proof (lines_not_nil s) as Hn.
  destruct (lines s) as [|l ls]; [contradiction|].
  inversion IH as [|? ? Hl Hls]; subst.
  destruct (Ascii.eqb c LF) eqn:Hc; simpl.
  - constructor; [reflexivity|assumption].
  - constructor; [|assumption]. simpl. now rewrite Hc, Hl.
Qed.

Lemma lines_of_single_line (s : string) :
  single_line s = true -> lines s = [s].
Proof.
  induction s as [|c s IH]; [reflexivity|].
  simpl. intros H. apply andb_prop in H as [Hc Hs].
  rewrite lines_cons, (IH Hs).
  apply negb_true_iff in Hc. now rewrite Hc.
Qed.

(** The lines of two texts joined by a newline. *)
Lemma lines_app_NL (x y : string) :
  lines (x ++ NL ++ y)%string = lines x ++ lines y.
Proof.
  induction x as [|c x IH].
  - reflexivity.
  - change (String c x ++ NL ++ y)%string with (String c (x ++ NL ++ y)).
    rewrite !lines_cons, IH.
    destruct (Ascii.eqb c LF); [reflexivity|].
    pose proof (lines_not_nil x) as Hn.
    destruct (lines x); [contradiction|reflexivity].
Qed.

(** The lines of two texts put end to start: the last line of the first and
    the first line of the second become one line. *)
Lemma lines_app (x y : string) :
  lines (x ++ y)%string =
  removelast (lines x)
  ++ (last (lines x) "" ++ hd "" (lines y))%string :: tl (lines y).
Proof.
  induction x as [|c x IH].
  - simpl. pose proof (lines_not_nil y). now destruct (lines y).
  - change (String c x ++ y)%string with (String c (x ++ y)).
    rewrite !lines_cons, IH.
    pose proof (lines_not_nil x) as Hn.
    destruct (lines x) as [|l ls] eqn:E; [contradiction|].
    destruct (Ascii.eqb c LF).
    + reflexivity.
    + destruct ls as [|l' ls]; reflexivity.
Qed.

Lemma unlines_cons (l : string) (ls : list string) :
  ls <> [] -> unlines (l :: ls) = (l ++ NL ++ unlines ls)%string.
Proof. destruct ls; [contradiction|reflexivity]. Qed.

(** Splitting what was joined gives the lines back, when each is a single
    line and there is at least one. *)
Lemma lines_unlines (ls : list string) :
  ls <> [] -> Forall (fun l => single_line l = true) ls ->
  lines (unlines ls) = ls.
Proof.
  induction ls as [|l ls IH]; [contradiction|].
  intros _ H. inversion H as [|? ? Hl Hls]; subst.
  destruct ls as [|l' ls].
  - now apply lines_of_single_line.
  - rewrite unlines_cons by discriminate.
    rewrite lines_app_NL, (lines_of_single_line l Hl), IH; auto. discriminate.
Qed.

Lemma Forall_single_line_place (ls : list string) (i : Z) (x : string) :
  single_line x = true ->
  Forall (fun l => single_line l = true) ls ->
  Forall (fun l => single_line l = true) (place ls i x).
Proof.
  intros Hx Hls. unfold place.
  rewrite <- (firstn_skipn (Z.to_nat (clip (Z.of_nat (List.length ls)) i)) ls) in Hls.
  apply Forall_app in Hls as [H1 H2].
  apply Forall_app. split; [assumption|]. now constructor.
Qed.

Lemma place_not_nil {X : Type} (l : list X) (i : Z) (x : X) : place l i x <> [].
Proof. unfold place. now destruct (firstn _ l). Qed.

(** A block rebuilt by [insert_command] splits into the lines it was built
    from. *)
Lemma lines_unlines_place (block : string) (i : Z) (x : string) :
  single_line x = true ->
  lines (unlines (place (lines block) i x)) = place (lines block) i x.
Proof.
  intros Hx. apply lines_unlines.
  - apply place_not_nil.
  - apply Forall_single_line_place; [assumption|apply lines_single_line].
Qed.

(** * The partitioner *)

Section Partitioner.

Context {column : Type}.
Implicit Types table : list column.

Lemma firstn_add (m k : nat) (u : list column) :
  firstn (m + k) u = firstn m u ++ firstn k (skipn m u).
Proof.
  revert u. induction m as [|m IH]; intros u; [reflexivity|].
  destruct u as [|x u]; simpl.
  - now rewrite firstn_nil.
  - now rewrite IH.
Qed.

(** Adjacent column ranges add up. *)
Lemma columns_app table (a b c : Z) :
  0 <= a <= b -> b <= c ->
  columns table a b ++ columns table b c = columns table a c.
Proof.
  intros Hab Hbc. unfold columns.
  replace (Z.to_nat (c - a)) with (Z.to_nat (b - a) + Z.to_nat (c - b))%nat by lia.
  rewrite firstn_add, skipn_skipn.
  do 3 f_equal. lia.
Qed.

Lemma columns_all table :
  columns table 0 (Z.of_nat (List.length table)) = table.
Proof.
  unfold columns. simpl. rewrite Z.sub_0_r, Nat2Z.id. apply firstn_all.
Qed.

Lemma loop_full_partitions table (no_cols no_subtables : Z) :
  0 < no_cols ->
  fold_left
    (fun subtables x =>
       subtables ++ [slice table (x * no_cols) (no_cols * (x + 1))])
    (range no_subtables) []
  = full_partitions table no_cols no_subtables.
Proof.
  intros HW. rewrite append_loop_map. simpl. unfold full_partitions.
  apply map_ext_in. intros x Hx.
  unfold range in Hx. apply in_map_iff in Hx as (n & <- & _).
  rewrite slice_columns by nia. f_equal. lia.
Qed.

Lemma length_full_partitions table (no_cols no_subtables : Z) :
  List.length (full_partitions table no_cols no_subtables)
  = Z.to_nat no_subtables.
Proof. unfold full_partitions. now rewrite length_map, length_range. Qed.

Lemma nth_error_full_partitions table (no_cols no_subtables : Z) (k : nat) :
  (k < Z.to_nat no_subtables)%nat ->
  nth_error (full_partitions table no_cols no_subtables) k
  = Some (columns table (Z.of_nat k * no_cols) ((Z.of_nat k + 1) * no_cols)).
Proof.
  intros Hk. unfold full_partitions, range.
  rewrite map_map, nth_error_map.
  rewrite (nth_error_nth' _ 0%nat) by (rewrite length_seq; exact Hk).
  rewrite seq_nth by exact Hk. reflexivity.
Qed.

(** Put end to end, the first [n] full partitions are the columns
    [0, n * no_cols). *)
Lemma concat_full_partitions table (no_cols : Z) (n : nat) :
  0 < no_cols ->
  List.concat (full_partitions table no_cols (Z.of_nat n))
  = columns table 0 (Z.of_nat n * no_cols).
Proof.
  intros HW. unfold full_partitions. rewrite range_of_nat.
  induction n as [|n IH]; [reflexivity|].
  rewrite seq_S, !map_app, concat_app, IH.
  cbn [map List.concat Nat.add]. rewrite app_nil_r.
  rewrite columns_app by nia. f_equal. lia.
Qed.

(** What [generate_subtables] returns for a positive width. *)
Lemma generate_subtables_positive table (no_cols : Z) :
  0 < no_cols ->
  generate_subtables table no_cols
  = Ok (full_partitions table no_cols (Z.of_nat (List.length table) / no_cols)
        ++ [slice_from table (- (Z.of_nat (List.length table) mod no_cols))]).
Proof.
  intros HW. unfold generate_subtables, divmod.
  destruct (Z.eqb_spec no_cols 0) as [E|_]; [lia|].
  simpl. now rewrite loop_full_partitions.
Qed.

(** What it returns for a negative width: the loop does not run, and the
    "remainder" slice starts at a non-negative position. *)
Lemma generate_subtables_negative table (no_cols : Z) :
  no_cols < 0 ->
  generate_subtables table no_cols
  = Ok [skipn (Z.to_nat (- (Z.of_nat (List.length table) mod no_cols))) table].
Proof.
  intros HW. unfold generate_subtables, divmod.
  destruct (Z.eqb_spec no_cols 0) as [E|_]; [lia|].
  simpl.
  pose proof (Z.mod_neg_bound (Z.of_nat (List.length table)) no_cols HW) as Hm.
  assert (Hq : Z.of_nat (List.length table) / no_cols <= 0).
  { pose proof (Z.div_mod (Z.of_nat (List.length table)) no_cols). nia. }
  rewrite range_nonpos by exact Hq. simpl.
  rewrite slice_from_nonneg by lia. reflexivity.
Qed.

End Partitioner.

Section PartitionerResults.

Context {column : Type}.
Implicit Types table : list column.

Lemma Forall_length_full_partitions table (W : Z) :
  0 < W ->
  Forall (fun p => Z.of_nat (List.length p) = W)
         (full_partitions table W (cols table / W)).
Proof.
  intros HW. apply Forall_forall. intros p Hp.
  unfold full_partitions, range in Hp.
  apply in_map_iff in Hp as (x & <- & Hx).
  apply in_map_iff in Hx as (n & <- & Hn).
  apply in_seq in Hn.
  assert (Hq : 0 <= cols table / W) by (apply Z.div_pos; unfold cols; lia).
  pose proof (Z.mul_div_le (cols table) W HW) as Hle.
  assert (Hn' : Z.of_nat n + 1 <= cols table / W) by lia.
  rewrite length_columns; unfold cols in *; nia.
Qed.

(** A remainder [R > 0]: [Q] full partitions and the last [R] columns. *)
Lemma generate_subtables_with_remainder table (W : Z) :
  0 < W <= cols table -> 0 < cols table mod W ->
  generate_subtables table W
  = Ok (full_partitions table W (cols table / W)
        ++ [columns table (cols table - cols table mod W) (cols table)]).
Proof.
  intros HW HR. rewrite generate_subtables_positive by lia.
  pose proof (Z.mod_pos_bound (cols table) W (proj1 HW)) as Hm.
  fold (cols table). rewrite slice_from_last; [reflexivity|].
  fold (cols table). lia.
Qed.

(** No remainder: the slice [table.iloc[:, -0:]] is the whole table. *)
Lemma generate_subtables_no_remainder table (W : Z) :
  0 < W -> cols table mod W = 0 ->
  generate_subtables table W
  = Ok (full_partitions table W (cols table / W) ++ [table]).
Proof.
  intros HW HR. rewrite generate_subtables_positive by lia.
  fold (cols table). rewrite HR. simpl (- 0).
  rewrite slice_from_nonneg by lia. reflexivity.
Qed.

(** A width above the number of columns. *)
Lemma generate_subtables_wide table (W : Z) :
  cols table < W -> generate_subtables table W = Ok [table].
Proof.
  intros HW. assert (H0 : 0 <= cols table) by (unfold cols; lia).
  rewrite generate_subtables_positive by lia. fold (cols table).
  rewrite Z.div_small, Z.mod_small by lia.
  unfold full_partitions. simpl. f_equal. f_equal.
  destruct (Z.eq_dec (cols table) 0) as [E|E].
  - rewrite E. simpl (- 0). rewrite slice_from_nonneg by lia. reflexivity.
  - rewrite slice_from_last by (fold (cols table); lia).
    fold (cols table). rewrite Z.sub_diag. apply columns_all.
Qed.

Lemma generate_subtables_zero table :
  generate_subtables table 0 = Raise ZeroDivisionError.
Proof. reflexivity. Qed.

End PartitionerResults.

(** * The command insertion *)

Section FirstIndex.

Variable x : string.

Lemma first_index_None (ls : list string) :
  first_index x ls = None <-> ~ In x ls.
Proof.
  induction ls as [|l ls IH]; simpl.
  - tauto.
  - destruct (String.eqb_spec l x) as [->|Hne].
    + split; [discriminate|tauto].
    + destruct (first_index x ls); simpl in *.
      * split; [discriminate|]. intros H. exfalso.
        assert (Hin : ~ In x ls) by tauto.
        apply IH in Hin. discriminate.
      * split; [|reflexivity]. intros _ [H|H]; [congruence|].
        now apply (proj1 IH).
Qed.

Lemma first_index_In (ls : list string) :
  In x ls -> exists t, first_index x ls = Some t.
Proof.
  intros Hin. destruct (first_index x ls) as [t|] eqn:E; [now exists t|].
  apply first_index_None in E. contradiction.
Qed.

(** The first index cuts the list at the first occurrence. *)
Lemma first_index_Some (ls : list string) (t : nat) :
  first_index x ls = Some t ->
  exists before after,
    ls = before ++ x :: after /\ ~ In x before /\ List.length before = t.
Proof.
  revert t. induction ls as [|l ls IH]; intros t; simpl; [discriminate|].
  destruct (String.eqb_spec l x) as [->|Hne].
  - intros [= <-]. exists [], ls. simpl. tauto.
  - destruct (first_index x ls) as [t'|]; simpl; [|discriminate].
    intros [= <-]. destruct (IH t' eq_refl) as (before & after & -> & Hb & Hl).
    exists (l :: before), after. simpl. repeat split; [|now rewrite Hl].
    intros [H|H]; [congruence|contradiction].
Qed.

Lemma first_index_app (before after : list string) :
  ~ In x before ->
  first_index x (before ++ x :: after) = Some (List.length before).
Proof.
  induction before as [|l before IH]; simpl; intros Hb.
  - now rewrite String.eqb_refl.
  - destruct (String.eqb_spec l x) as [->|Hne]; [tauto|].
    rewrite IH by tauto. reflexivity.
Qed.

(** A line other than [x] put into the list moves the first [x] down by
    one when it lands at or before it, and leaves it where it is otherwise. *)
Lemma first_index_put (y : string) (ls : list string) (k t : nat) :
  y <> x -> first_index x ls = Some t ->
  first_index x (firstn k ls ++ y :: skipn k ls)
  = Some (if (k <=? t)%nat then S t else t).
Proof.
  intros Hy. revert k t. induction ls as [|l ls IH]; intros k t; [discriminate|].
  destruct k as [|k].
  - intros H. cbn [firstn skipn app]. cbn [first_index].
    destruct (String.eqb_spec y x) as [E|_]; [contradiction|].
    cbn [first_index] in H. rewrite H. reflexivity.
  - cbn [firstn skipn app first_index].
    destruct (String.eqb_spec l x) as [->|Hne].
    + intros [= <-]. reflexivity.
    + destruct (first_index x ls) as [t'|] eqn:E; simpl; [|discriminate].
      intros [= <-]. rewrite (IH k t' eq_refl). simpl.
      now destruct (k <=? t')%nat.
Qed.

End FirstIndex.

(** The list [top_rule] of the source holds the positions of the marker
    lines in increasing order, so [top_rule[0]] is the first of them and
    fails when there is none. *)
Lemma top_rule_positions (ls : list string) (off : nat) :
  hd_error
    (filter (fun i => String.eqb (nth (i - off) ls "") toprule)
            (seq off (List.length ls)))
  = option_map (fun t => (off + t)%nat) (first_index toprule ls).
Proof.
  revert off. induction ls as [|l ls IH]; intros off; [reflexivity|].
  cbn [List.length seq filter first_index].
  rewrite Nat.sub_diag. cbn [nth].
  destruct (String.eqb l toprule); simpl.
  - f_equal. lia.
  - rewrite (filter_ext_in _
      (fun i => String.eqb (nth (i - S off) ls "") toprule)).
    + rewrite IH. destruct (first_index toprule ls); simpl; [f_equal; lia|reflexivity].
    + intros i Hi. apply in_seq in Hi.
      replace (i - off)%nat with (S (i - S off)) by lia. reflexivity.
Qed.

Lemma getitem_0 {X : Type} (l : list X) :
  getitem l 0 = match hd_error l with
                | Some v => Ok v
                | None => Raise IndexError
                end.
Proof.
  destruct l as [|v l]; [reflexivity|].
  unfold getitem. cbn [Z.ltb Z.compare].
  destruct (Z.leb_spec (Z.of_nat (List.length (v :: l))) 0) as [H|H].
  - simpl in H. lia.
  - reflexivity.
Qed.

Lemma filter_map_of_nat (p : Z -> bool) (l : list nat) :
  filter p (map Z.of_nat l) = map Z.of_nat (filter (fun n => p (Z.of_nat n)) l).
Proof.
  induction l as [|n l IH]; [reflexivity|].
  simpl. destruct (p (Z.of_nat n)); simpl; now rewrite IH.
Qed.

Lemma top_rule_0 (row_split : list string) :
  getitem
    (filter (fun i => String.eqb (nth (Z.to_nat i) row_split "") "\toprule")
            (range (Z.of_nat (List.length row_split)))) 0
  = match first_index toprule row_split with
    | Some t => Ok (Z.of_nat t)
    | None => Raise IndexError
    end.
Proof.
  rewrite getitem_0, range_of_nat, filter_map_of_nat.
  pose proof (top_rule_positions row_split 0) as H.
  rewrite (filter_ext _
     (fun i => String.eqb (nth (i - 0) row_split "") toprule)).
  - destruct (filter _ _) as [|i rest] eqn:E; simpl in *.
    + destruct (first_index toprule row_split); [discriminate|reflexivity].
    + destruct (first_index toprule row_split); simpl in H; [|discriminate].
      now injection H as ->.
  - intros i. now rewrite Nat2Z.id, Nat.sub_0_r.
Qed.

(** The loop of [insert_command] treats the blocks one by one, in order. *)
Lemma insert_command_nil (command : string) (row : Z) :
  insert_command [] command row = Ok [].
Proof. reflexivity. Qed.

Lemma insert_command_cons (b : string) (bs : list string) (command : string)
    (row : Z) :
  insert_command (b :: bs) command row
  = (b' <- insert_in_block command row b ;;
     bs' <- insert_command bs command row ;;
     Ok (b' :: bs')).
Proof.
  unfold insert_command.
  set (body := fun (latex_table_new : list string) (sub_table : string) => _).
  assert (Hacc : forall items acc,
    for_each items body acc
    = (out <- for_each items body [] ;; Ok (acc ++ out))).
  { induction items as [|i items IH]; intros acc.
    - simpl. now rewrite app_nil_r.
    - cbn [for_each]. unfold body at 1 3.
      rewrite top_rule_0.
      destruct (first_index toprule (split LF i)) as [t|]; cbn [bind];
        [|reflexivity].
      destruct (insert (split LF i) (Z.of_nat t + row) command); cbn [bind app];
        [|reflexivity].
      rewrite IH. rewrite (IH [_]).
      destruct (for_each items body []); simpl; [|reflexivity].
      now rewrite <- app_assoc. }
  cbn [for_each]. unfold body at 1, insert_in_block, lines.
  rewrite top_rule_0.
  destruct (first_index toprule (split LF b)) as [t|]; cbn [bind];
    [|reflexivity].
  destruct (insert (split LF b) (Z.of_nat t + row) command); cbn [bind app];
    [|reflexivity].
  rewrite Hacc. reflexivity.
Qed.

Lemma has_toprule_first_marker (block : string) :
  has_toprule block -> exists before after, first_marker block before after.
Proof.
  intros H. apply first_index_In in H as [t Ht].
  apply first_index_Some in Ht as (before & after & E & Hb & _).
  exists before, after. now split.
Qed.

Lemma first_index_app_lines (block : string) (before after : list string) :
  first_marker block before after ->
  first_index toprule (lines block) = Some (List.length before).
Proof. intros [E Hb]. rewrite E. now apply first_index_app. Qed.

Lemma first_marker_has_toprule (block : string) (before after : list string) :
  first_marker block before after -> has_toprule block.
Proof.
  intros [E _]. unfold has_toprule. rewrite E. apply in_elt.
Qed.

Lemma place_at_length {X : Type} (pre post : list X) (x : X) :
  place (pre ++ post) (Z.of_nat (List.length pre)) x = pre ++ x :: post.
Proof.
  rewrite place_inside by (rewrite length_app; lia).
  rewrite Nat2Z.id, firstn_app, skipn_app, Nat.sub_diag, firstn_all, skipn_all.
  simpl. now rewrite app_nil_r.
Qed.

(** One block with a marker and a row that fits: the command goes in at the
    marker's position plus [row]. *)
Lemma insert_in_block_marker (command : string) (row : Z) (block : string)
    (before after : list string) :
  first_marker block before after ->
  index_fits (Z.of_nat (List.length (lines block)))
             (Z.of_nat (List.length before) + row) ->
  insert_in_block command row block
  = Ok (unlines (place (before ++ toprule :: after)
                       (Z.of_nat (List.length before) + row) command)).
Proof.
  intros [E Hb] Hfit. unfold insert_in_block.
  rewrite (first_index_app_lines block before after) by (split; assumption).
  rewrite insert_fits by exact Hfit. now rewrite E.
Qed.

(** What is returned for one block. *)
Lemma insert_in_block_Ok (command : string) (row : Z) (block block' : string) :
  insert_in_block command row block = Ok block' <->
  exists t,
    first_index toprule (lines block) = Some t
    /\ index_fits (Z.of_nat (List.length (lines block))) (Z.of_nat t + row)
    /\ block' = unlines (place (lines block) (Z.of_nat t + row) command).
Proof.
  unfold insert_in_block. split.
  - destruct (first_index toprule (lines block)) as [t|]; [|discriminate].
    destruct (insert (lines block) (Z.of_nat t + row) command) as [ls|e] eqn:E;
      [|discriminate].
    cbn [bind]. intros [= <-]. apply insert_Ok in E as [Hfit ->].
    now exists t.
  - intros (t & -> & Hfit & ->). now rewrite insert_fits.
Qed.

(** One block without a marker: [top_rule[0]] raises. *)
Lemma insert_in_block_no_marker (command : string) (row : Z) (block : string) :
  ~ has_toprule block -> insert_in_block command row block = Raise IndexError.
Proof.
  intros H. unfold insert_in_block.
  apply first_index_None in H. unfold toprule in *. now rewrite H.
Qed.

(** One block raises [IndexError] exactly when it has no marker, and
    otherwise nothing but the [OverflowError] of [list.insert]. *)
Lemma insert_in_block_IndexError (command : string) (row : Z) (block : string) :
  insert_in_block command row block = Raise IndexError <-> ~ has_toprule block.
Proof.
  split; [|apply insert_in_block_no_marker].
  unfold insert_in_block.
  destruct (first_index toprule (lines block)) as [t|] eqn:Et.
  - destruct (insert (lines block) (Z.of_nat t + row) command) as [ls|e] eqn:E;
      [discriminate|].
    apply insert_Raise in E. subst e. discriminate.
  - intros _. now apply first_index_None.
Qed.

Lemma insert_in_block_Raise (command : string) (row : Z) (block : string)
    (e : exn) :
  insert_in_block command row block = Raise e ->
  e = IndexError \/ e = OverflowError.
Proof.
  unfold insert_in_block.
  destruct (first_index toprule (lines block)) as [t|].
  - destruct (insert (lines block) (Z.of_nat t + row) command) as [ls|e'] eqn:E;
      [discriminate|].
    cbn [bind]. intros [= <-]. right. now apply insert_Raise in E.
  - intros [= <-]. now left.
Qed.

(** [insert_command] raises nothing but [IndexError] and [OverflowError]. *)
Lemma insert_command_Raise (bs : list string) (command : string) (row : Z)
    (e : exn) :
  insert_command bs command row = Raise e ->
  e = IndexError \/ e = OverflowError.
Proof.
  induction bs as [|b bs IH]; [discriminate|].
  rewrite insert_command_cons.
  destruct (insert_in_block command row b) eqn:Eb; simpl.
  - destruct (insert_command bs command row); simpl; [discriminate|].
    intros [= <-]. now apply IH.
  - intros [= <-]. now apply insert_in_block_Raise in Eb.
Qed.

(** It returns exactly when its loop body returns for every block, and
    then block by block. *)
Lemma insert_command_Ok (bs : list string) (command : string) (row : Z)
    (out : list string) :
  insert_command bs command row = Ok out <->
  Forall2 (fun b b' => insert_in_block command row b = Ok b') bs out.
Proof.
  revert out. induction bs as [|b bs IH]; intros out.
  - rewrite insert_command_nil. split.
    + intros [= <-]. constructor.
    + intros H. now inversion H.
  - rewrite insert_command_cons. split.
    + destruct (insert_in_block command row b) eqn:Eb; simpl; [|discriminate].
      destruct (insert_command bs command row) eqn:Ebs; simpl; [|discriminate].
      intros [= <-]. constructor; [assumption|now apply IH].
    + intros H. inversion H as [|? b' ? out' Hb Hbs]; subst.
      rewrite Hb. simpl. apply IH in Hbs. now rewrite Hbs.
Qed.

(** Inserting above the marker. *)
Lemma insert_in_block_row_0 (command : string) (block : string)
    (before after : list string) :
  first_marker block before after ->
  insert_in_block command 0 block
  = Ok (unlines (before ++ command :: toprule :: after)).
Proof.
  intros H. rewrite (insert_in_block_marker _ _ _ _ _ H).
  - now rewrite Z.add_0_r, place_at_length.
  - apply index_fits_inside. destruct H as [E _].
    rewrite E, length_app. lia.
Qed.

(** Inserting below the marker, after the lines [body] that follow it. *)
Lemma insert_in_block_below (command : string) (row : Z) (block : string)
    (before body after : list string) :
  first_marker block before (body ++ after) ->
  row = Z.of_nat (List.length body) + 1 ->
  insert_in_block command row block
  = Ok (unlines (before ++ toprule :: body ++ command :: after)).
Proof.
  intros H ->. rewrite (insert_in_block_marker _ _ _ _ _ H).
  - replace (Z.of_nat (List.length before) + (Z.of_nat (List.length body) + 1))
      with (Z.of_nat (List.length (before ++ toprule :: body)))
      by (rewrite length_app; simpl; lia).
    replace (before ++ toprule :: body ++ after)
      with ((before ++ toprule :: body) ++ after)
      by (now rewrite <- app_assoc).
    rewrite place_at_length, <- app_assoc. reflexivity.
  - apply index_fits_inside. destruct H as [E _].
    rewrite E, !length_app. cbn [List.length]. rewrite length_app. lia.
Qed.

(** The lines of a block that [insert_command] built. *)
Lemma lines_of_built (ls : list string) (block : string) (command : string) :
  single_line command = true ->
  (exists before after, lines block = before ++ after
                        /\ ls = before ++ command :: after) ->
  lines (unlines ls) = ls.
Proof.
  intros Hc (before & after & E & ->).
  pose proof (lines_single_line block) as Hs. rewrite E in Hs.
  apply Forall_app in Hs as [H1 H2].
  apply lines_unlines.
  - now destruct before.
  - apply Forall_app. split; [assumption|now constructor].
Qed.

(** * The container wrap *)

Lemma single_line_app (a b : string) :
  single_line (a ++ b)%string = single_line a && single_line b.
Proof.
  induction a as [|c a IH]; [reflexivity|].
  simpl. now rewrite IH, andb_assoc.
Qed.

Lemma single_line_begin (container : string) :
  single_line container = true -> single_line (begin_ container) = true.
Proof.
  intros H. unfold begin_. rewrite !single_line_app, H. reflexivity.
Qed.

Lemma single_line_end (container : string) :
  single_line container = true -> single_line (end_ container) = true.
Proof.
  intros H. unfold end_. rewrite !single_line_app, H. reflexivity.
Qed.

(** [wrap_table] writes, for each block, the open directive, a newline, the
    block, the close directive and a newline. *)
Lemma wrap_table_map (latex_tables : list string) (container : string) :
  wrap_table latex_tables container
  = map (fun lt => (begin_ container ++ NL ++ lt ++ end_ container ++ NL)%string)
        latex_tables.
Proof.
  unfold wrap_table. apply map_ext. intros lt.
  unfold begin_, end_. now rewrite !append_assoc.
Qed.

(** The lines of a wrapped block: the lines of the open directive, the
    block's lines but the last, one line made of the block's last line and
    the first line of the close directive, the other lines of the close
    directive, and the empty line after the final newline. *)
Lemma lines_wrapped_any (container lt : string) :
  lines (begin_ container ++ NL ++ lt ++ end_ container ++ NL)%string
  = lines (begin_ container)
    ++ removelast (lines lt)
    ++ (last (lines lt) "" ++ hd "" (lines (end_ container)))%string
       :: tl (lines (end_ container)) ++ [""].
Proof.
  rewrite lines_app_NL.
  replace (lt ++ end_ container ++ NL)%string
    with ((lt ++ end_ container) ++ NL ++ "")%string
    by (now rewrite append_assoc).
  rewrite lines_app_NL, lines_app.
  cbn [lines split]. now rewrite <- !app_assoc.
Qed.

(** For a container name without a newline each directive is one line. *)
Lemma lines_wrapped (container lt : string) :
  single_line container = true ->
  lines (begin_ container ++ NL ++ lt ++ end_ container ++ NL)%string
  = begin_ container
    :: removelast (lines lt)
    ++ [(last (lines lt) "" ++ end_ container)%string; ""].
Proof.
  intros Hc. rewrite lines_wrapped_any.
  rewrite (lines_of_single_line _ (single_line_begin _ Hc)).
  rewrite (lines_of_single_line _ (single_line_end _ Hc)).
  reflexivity.
Qed.

(** The last line of a text is empty exactly when the text is empty or ends
    with a newline. *)
Lemma last_line_empty (s : string) :
  last (lines s) "" = "" <-> s = "" \/ endswith s LF = true.
Proof.
  induction s as [|c s IH].
  - simpl. tauto.
  - rewrite lines_cons.
    pose proof (lines_not_nil s) as Hn.
    pose proof (unlines_lines s) as Hu.
    destruct s as [|c' s'].
    + cbn [lines split hd tl endswith].
      destruct (Ascii.eqb c LF); simpl; split; intros H;
        try tauto; try discriminate.
      destruct H; discriminate.
    + change (endswith (String c (String c' s')) LF)
        with (endswith (String c' s') LF).
      destruct (lines (String c' s')) as [|h t] eqn:E; [contradiction|].
      assert (IH' : last (h :: t) "" = "" <-> endswith (String c' s') LF = true).
      { rewrite IH. split; [intros [H|H]; [discriminate|assumption]|tauto]. }
      destruct (Ascii.eqb c LF).
      * change (last ("" :: h :: t) "") with (last (h :: t) "").
        rewrite IH'. split; [tauto|]. intros [H|H]; [discriminate|assumption].
      * cbn [hd tl]. destruct t as [|h' t].
        -- cbn [last]. split; [discriminate|].
           intros [H|H]; [discriminate|].
           apply IH' in H. cbn [last] in H. subst h.
           unfold unlines, join in Hu. simpl in Hu. discriminate.
        -- change (last (String c h :: h' :: t) "") with (last (h :: h' :: t) "").
           rewrite IH'. split; [tauto|]. intros [H|H]; [discriminate|assumption].
Qed.

(** * The orchestrator *)

Lemma for_each_invariant {S X : Type} (P : S -> Prop) (items : list X)
    (body : S -> X -> result S) (s out : S) :
  (forall s x s', P s -> body s x = Ok s' -> P s') ->
  P s -> for_each items body s = Ok out -> P out.
Proof.
  intros Hbody. revert s. induction items as [|x items IH]; intros s Hs; simpl.
  - now intros [= <-].
  - destruct (body s x) as [s'|e] eqn:E; simpl; [|discriminate].
    apply IH. exact (Hbody _ _ _ Hs E).
Qed.

Lemma insert_midrules_nil (latex_tables : list string) :
  insert_midrules latex_tables [] = Ok latex_tables.
Proof. reflexivity. Qed.

(** Two mid-rules: the second insertion is one line further down. *)
Lemma insert_midrules_two (latex_tables : list string) (m0 m1 : Z) :
  insert_midrules latex_tables [m0; m1]
  = (once <- insert_command latex_tables "\midrule" (m0 + 0) ;;
     insert_command once "\midrule" (m1 + 1)).
Proof.
  unfold insert_midrules.
  change (enumerate [m0; m1]) with [(0, m0); (1, m1)].
  cbn [for_each].
  destruct (insert_command latex_tables "\midrule" (m0 + 0)); cbn [bind]; [|reflexivity].
  now destruct (insert_command _ "\midrule" (m1 + 1)).
Qed.

Section Orchestrator.

Context {column : Type}.
Variable to_latex : list column -> string.

(** [wide_table] combines the decorated blocks. *)
Lemma wide_table_decorated (table : list column) (no_cols : Z)
    (landscape center : bool) (midrules : option (list Z)) :
  wide_table to_latex table no_cols landscape center midrules
  = (blocks <- decorated_blocks to_latex table no_cols landscape center midrules ;;
     Ok (combine_subtables blocks)).
Proof.
  unfold wide_table, decorated_blocks.
  destruct (generate_subtables table no_cols) as [subtables|e]; simpl; [|reflexivity].
  destruct center; simpl; [|reflexivity].
  now destruct (insert_command _ "\centering" 0).
Qed.

(** The passes of [decorated_blocks], one after the other. *)
Lemma decorated_blocks_midrules (table : list column) (no_cols : Z)
    (landscape center : bool) (midrules : option (list Z)) :
  decorated_blocks to_latex table no_cols landscape center midrules
  = (subtables <- generate_subtables table no_cols ;;
     latex_tables <-
       (if center then
          insert_command (wrap_table (latex_subtables to_latex subtables) "table")
                         "\centering" 0
        else Ok (latex_subtables to_latex subtables)) ;;
     insert_midrules
       (if landscape then wrap_table latex_tables "landscape" else latex_tables)
       (match midrules with None => [] | Some m => m end)).
Proof. reflexivity. Qed.

End Orchestrator.

(** The concatenation of the blocks, each after a page break on a line of
    its own, with nothing between them. *)
Lemma combine_subtables_cons (b : string) (bs : list string) :
  combine_subtables (b :: bs)
  = ("\newpage" ++ NL ++ b ++ combine_subtables bs)%string.
Proof.
  unfold combine_subtables, join. cbn [map String.concat].
  destruct (map _ bs) eqn:E.
  - simpl. now rewrite append_empty_r.
  - rewrite <- E. cbn [append]. now rewrite !append_assoc.
Qed.

(** ** Nesting of the containers *)

Lemma place_keeps_head {X : Type} (h : X) (l : list X) (i : Z) (x : X) :
  0 < i -> exists l', l' <> [] /\ place (h :: l) i x = h :: l'.
Proof.
  intros Hi. unfold place, clip.
  assert (E : (i <? 0) = false) by lia. rewrite E.
  destruct (Z.to_nat (Z.min i (Z.of_nat (List.length (h :: l))))) as [|k] eqn:Ek.
  - simpl in Ek. lia.
  - exists (firstn k l ++ x :: skipn k l). split; [|reflexivity].
    now destruct (firstn k l).
Qed.

(** After the center pass a block starts with the line [\begin{table}]. *)
Lemma centered_block (lt b : string) :
  insert_in_block "\centering" 0
    (begin_ "table" ++ NL ++ lt ++ end_ "table" ++ NL)%string = Ok b ->
  exists text, b = (begin_ "table" ++ NL ++ text)%string.
Proof.
  intros H. apply insert_in_block_Ok in H as (t & Ht & _ & ->).
  rewrite lines_wrapped in * by reflexivity.
  cbn [first_index] in Ht.
  change (String.eqb (begin_ "table") toprule) with false in Ht. cbv iota in Ht.
  destruct (first_index toprule _) as [t'|]; simpl option_map in Ht;
    [|discriminate].
  injection Ht as <-.
  match goal with
  | |- context [place (?h :: ?l) ?i ?x] =>
      destruct (place_keeps_head h l i x) as (l' & Hl' & ->); [lia|]
  end.
  exists (unlines l'). now apply unlines_cons.
Qed.

(** A centered block wrapped in [landscape]: the first two lines. *)
Lemma lines_landscape_table (text : string) :
  exists rest,
    lines (begin_ "landscape" ++ NL ++ (begin_ "table" ++ NL ++ text)
           ++ end_ "landscape" ++ NL)%string
    = begin_ "landscape" :: begin_ "table" :: rest.
Proof.
  exists (lines (text ++ end_ "landscape" ++ NL)%string).
  rewrite !append_assoc, !lines_app_NL.
  rewrite (lines_of_single_line (begin_ "landscape") eq_refl).
  rewrite (lines_of_single_line (begin_ "table") eq_refl).
  reflexivity.
Qed.

Lemma landscape_outside_table_wrapped (text : string) :
  landscape_outside_table
    (begin_ "landscape" ++ NL ++ (begin_ "table" ++ NL ++ text)
     ++ end_ "landscape" ++ NL)%string.
Proof.
  destruct (lines_landscape_table text) as [rest E].
  exists 0%nat, 1%nat. rewrite E. repeat split. lia.
Qed.

(** A mid-rule put anywhere keeps the nesting. *)
Lemma landscape_outside_table_midrule (row : Z) (b b' : string) :
  insert_in_block "\midrule" row b = Ok b' ->
  landscape_outside_table b -> landscape_outside_table b'.
Proof.
  intros H (i & j & Hi & Hj & Hij).
  apply insert_in_block_Ok in H as (t & _ & _ & ->).
  unfold landscape_outside_table.
  rewrite lines_unlines_place by reflexivity.
  destruct (place_somewhere (lines b) (Z.of_nat t + row) "\midrule")
    as (k & _ & ->).
  rewrite (first_index_put _ _ _ k i) by (discriminate || assumption).
  rewrite (first_index_put _ _ _ k j) by (discriminate || assumption).
  do 2 eexists. repeat split.
  destruct (Nat.leb_spec k i), (Nat.leb_spec k j); lia.
Qed.

Lemma landscape_outside_table_loop (bs out : list string) (midrules : list Z) :
  insert_midrules bs midrules = Ok out ->
  Forall landscape_outside_table bs -> Forall landscape_outside_table out.
Proof.
  intros H Hbs. unfold insert_midrules in H.
  revert H. apply for_each_invariant; [|assumption].
  intros s [count mr] s' Hs E. apply insert_command_Ok in E.
  induction E as [|b b' s s' Hb _ IH]; [constructor|].
  inversion Hs; subst. constructor; [|now apply IH].
  eapply landscape_outside_table_midrule; eassumption.
Qed.

(** ** The passes of the orchestrator *)

Lemma combine_subtables_page_broken (blocks : list string) :
  combine_subtables blocks = page_broken blocks.
Proof.
  induction blocks as [|b bs IH]; [reflexivity|].
  rewrite combine_subtables_cons, IH. reflexivity.
Qed.

Lemma generate_subtables_returns {column : Type} (table : list column)
    (no_cols : Z) :
  no_cols <> 0 -> exists subtables, generate_subtables table no_cols = Ok subtables.
Proof.
  intros H. destruct (Z.lt_total no_cols 0) as [Hn|[Hz|Hp]]; [|contradiction|].
  - eexists. now apply generate_subtables_negative.
  - eexists. now apply generate_subtables_positive.
Qed.

Lemma insert_command_length (bs out : list string) (command : string) (row : Z) :
  insert_command bs command row = Ok out -> List.length out = List.length bs.
Proof.
  intros H. apply insert_command_Ok in H. symmetry. eapply Forall2_length, H.
Qed.

Lemma insert_midrules_length (bs out : list string) (midrules : list Z) :
  insert_midrules bs midrules = Ok out -> List.length out = List.length bs.
Proof.
  unfold insert_midrules.
  apply (for_each_invariant (fun s => List.length s = List.length bs));
    [|reflexivity].
  intros s [count mr] s' Hs E. apply insert_command_length in E. congruence.
Qed.

Lemma center_pass_blocks (latex_tables centered : list string) :
  insert_command (wrap_table latex_tables "table") "\centering" 0 = Ok centered ->
  Forall (fun b => exists text, b = (begin_ "table" ++ NL ++ text)%string)
         centered.
Proof.
  rewrite wrap_table_map. intros H. apply insert_command_Ok in H.
  revert centered H. induction latex_tables as [|lt lts IH]; intros centered H;
    inversion H as [|? b ? out Hb Hout]; subst; constructor.
  - now apply centered_block in Hb.
  - now apply IH.
Qed.

Lemma landscape_pass_blocks (centered : list string) :
  Forall (fun b => exists text, b = (begin_ "table" ++ NL ++ text)%string)
         centered ->
  Forall landscape_outside_table (wrap_table centered "landscape").
Proof.
  intros H. rewrite wrap_table_map. apply Forall_map.
  eapply Forall_impl; [|exact H].
  intros b [text ->]. apply landscape_outside_table_wrapped.
Qed.

(** ** When the pipeline returns *)

Lemma In_removelast {X : Type} (x : X) (l : list X) :
  In x (removelast l) -> In x l.
Proof.
  induction l as [|y l IH]; [easy|].
  destruct l as [|z l]; [easy|].
  change (removelast (y :: z :: l)) with (y :: removelast (z :: l)).
  intros [H|H]; [now left|right; now apply IH].
Qed.

Lemma In_removelast_put {X : Type} (x c : X) (l : list X) (k : nat) :
  In x (removelast l) -> In x (removelast (firstn k l ++ c :: skipn k l)).
Proof.
  intros H. destruct (skipn k l) as [|y sk] eqn:E.
  - rewrite removelast_last.
    rewrite <- (firstn_skipn k l), E, app_nil_r in H. now apply In_removelast.
  - rewrite <- (firstn_skipn k l), E in H.
    rewrite removelast_app in H by discriminate.
    rewrite removelast_app by discriminate.
    change (removelast (c :: y :: sk)) with (c :: removelast (y :: sk)).
    apply in_app_or in H as [H|H]; apply in_or_app; [now left|right; now right].
Qed.

Lemma toprule_line_ended_has_toprule (block : string) :
  toprule_line_ended block -> has_toprule block.
Proof. apply In_removelast. Qed.

Lemma for_each_returns_along {S X : Type} (P : list X -> S -> Prop)
    (Q : X -> Prop) (items : list X) (body : S -> X -> result S) (s : S) :
  (forall s x rest, Q x -> P (x :: rest) s ->
     exists s', body s x = Ok s' /\ P rest s') ->
  Forall Q items -> P items s ->
  exists out, for_each items body s = Ok out /\ P [] out.
Proof.
  intros Hbody HQ. revert s.
  induction HQ as [|x items Hx _ IH]; intros s Hs; simpl.
  - now exists s.
  - destruct (Hbody s x items Hx Hs) as (s' & -> & Hs'). simpl. now apply IH.
Qed.

Lemma first_index_lt (x : string) (ls : list string) (t : nat) :
  first_index x ls = Some t -> (t < List.length ls)%nat.
Proof.
  intros H. apply first_index_Some in H as (before & after & -> & _ & <-).
  rewrite length_app. simpl. lia.
Qed.

(** The row 0 fits every block. *)
Lemma row_fits_0 (block : string) : row_fits 0 block.
Proof.
  intros t Ht. apply first_index_lt in Ht. apply index_fits_inside. lia.
Qed.

(** A row fits a block when it is a machine index and stays one with the
    number of the block's lines added. *)
Lemma row_fits_bounds (row : Z) (block : string) :
  ssize_t_min <= row ->
  row + Z.of_nat (List.length (lines block)) <= ssize_t_max ->
  row_fits row block.
Proof.
  intros Hlo Hhi t Ht. apply first_index_lt in Ht. apply index_fits_ssize. lia.
Qed.

Lemma length_place {X : Type} (l : list X) (i : Z) (x : X) :
  List.length (place l i x) = S (List.length l).
Proof.
  destruct (place_somewhere l i x) as (k & Hk & ->).
  rewrite length_app. cbn [List.length].
  rewrite length_firstn, length_skipn. lia.
Qed.

Lemma insert_in_block_returns (command : string) (row : Z) (block : string) :
  single_line command = true -> toprule_line_ended block ->
  row_fits row block ->
  exists block',
    insert_in_block command row block = Ok block'
    /\ toprule_line_ended block'
    /\ List.length (lines block') = S (List.length (lines block)).
Proof.
  intros Hc H Hfit.
  destruct (first_index_In _ _ (toprule_line_ended_has_toprule _ H)) as [t Ht].
  exists (unlines (place (lines block) (Z.of_nat t + row) command)).
  split; [|split].
  - apply insert_in_block_Ok. exists t.
    split; [exact Ht|split; [now apply Hfit|reflexivity]].
  - unfold toprule_line_ended. rewrite lines_unlines_place by exact Hc.
    destruct (place_somewhere (lines block) (Z.of_nat t + row) command)
      as (k & _ & ->).
    now apply In_removelast_put.
  - rewrite lines_unlines_place by exact Hc. apply length_place.
Qed.

Lemma insert_command_returns (bs : list string) (command : string) (row B : Z) :
  single_line command = true ->
  Forall (ended_within B) bs -> Forall (row_fits row) bs ->
  exists out,
    insert_command bs command row = Ok out /\ Forall (ended_within (B + 1)) out.
Proof.
  intros Hc H. induction H as [|b bs [Hb HB] _ IH]; intros Hfit.
  - exists []. split; [reflexivity|constructor].
  - inversion Hfit as [|? ? Hfb Hfbs]; subst.
    destruct (IH Hfbs) as (out & Hout & Hall).
    destruct (insert_in_block_returns command row b Hc Hb Hfb) as (b' & Eb & Hb' & Hl).
    exists (b' :: out). rewrite insert_command_cons, Eb, Hout.
    split; [reflexivity|]. constructor; [|exact Hall].
    split; [exact Hb'|]. rewrite Hl. lia.
Qed.

Lemma ended_within_le (B B' : Z) (bs : list string) :
  B <= B' -> Forall (ended_within B) bs -> Forall (ended_within B') bs.
Proof.
  intros HB. apply Forall_impl. intros b [H Hl]. split; [exact H|lia].
Qed.

Lemma wrap_table_ended_within (bs : list string) (container : string) (B : Z) :
  single_line container = true ->
  Forall (ended_within B) bs ->
  Forall (ended_within (B + 2)) (wrap_table bs container).
Proof.
  intros Hc H. rewrite wrap_table_map. apply Forall_map.
  eapply Forall_impl; [|exact H].
  intros b [Hb HB]. unfold ended_within, toprule_line_ended.
  rewrite lines_wrapped by exact Hc. split.
  - rewrite !app_comm_cons.
    replace ((begin_ container :: removelast (lines b))
             ++ [(last (lines b) "" ++ end_ container)%string; ""])
      with (((begin_ container :: removelast (lines b))
             ++ [(last (lines b) "" ++ end_ container)%string]) ++ [""])
      by now rewrite <- app_assoc.
    rewrite removelast_last. apply in_or_app. left. now right.
  - pose proof (lines_not_nil b) as Hn.
    destruct (exists_last Hn) as (r & y & E). rewrite E in *.
    rewrite removelast_last. cbn [List.length].
    rewrite !length_app in *. cbn [List.length] in *. lia.
Qed.

(** [enumerate] pairs each item with its position. *)
Lemma In_enumerate {X : Type} (items : list X) (count : Z) (x : X) :
  In (count, x) (enumerate items) ->
  0 <= count < Z.of_nat (List.length items) /\ In x items.
Proof.
  unfold enumerate. intros H. split.
  - apply in_combine_l in H. rewrite range_of_nat in H.
    apply in_map_iff in H as (n & <- & Hn). apply in_seq in Hn. lia.
  - now apply in_combine_r in H.
Qed.

Lemma length_enumerate {X : Type} (items : list X) :
  List.length (enumerate items) = List.length items.
Proof.
  unfold enumerate. rewrite length_combine, length_range, Nat2Z.id. lia.
Qed.

Lemma insert_midrules_returns (bs : list string) (midrules : list Z) (B : Z) :
  Forall (ended_within B) bs ->
  Forall (fun m => ssize_t_min <= m
                   /\ m + B + 2 * Z.of_nat (List.length midrules) <= ssize_t_max)
         midrules ->
  exists out, insert_midrules bs midrules = Ok out.
Proof.
  intros Hbs Hms. unfold insert_midrules.
  set (B' := B + Z.of_nat (List.length midrules)).
  destruct (for_each_returns_along
              (fun rest s =>
                 Forall (fun b => toprule_line_ended b
                                  /\ Z.of_nat (List.length (lines b))
                                     + Z.of_nat (List.length rest) <= B') s)
              (fun p : Z * Z =>
                 ssize_t_min <= snd p + fst p
                 /\ snd p + fst p + B' <= ssize_t_max)
              (enumerate midrules)
              (fun latex_tables '(count, mr) =>
                 insert_command latex_tables "\midrule" (mr + count))
              bs) as (out & E & _).
  - intros s [count mr] rest [Hlo Hhi] Hs. cbn [fst snd] in *.
    destruct (insert_command_returns s "\midrule" (mr + count)
                (B' - Z.of_nat (List.length rest) - 1) eq_refl)
      as (s' & Es & Hs').
    + eapply Forall_impl; [|exact Hs]. intros b [Hb Hl].
      split; [exact Hb|]. cbn [List.length] in Hl. lia.
    + eapply Forall_impl; [|exact Hs]. intros b [Hb Hl].
      apply row_fits_bounds; cbn [List.length] in Hl; lia.
    + exists s'. split; [exact Es|].
      eapply Forall_impl; [|exact Hs']. intros b [Hb Hl].
      split; [exact Hb|lia].
  - apply Forall_forall. intros [count mr] Hin.
    apply In_enumerate in Hin as [Hc Hm].
    rewrite Forall_forall in Hms. destruct (Hms mr Hm) as [Hlo Hhi].
    cbn [fst snd]. unfold B'. lia.
  - rewrite length_enumerate. eapply Forall_impl; [|exact Hbs].
    intros b [Hb Hl]. split; [exact Hb|]. unfold B'. lia.
  - now exists out.
Qed.

(** For a width other than 0, a rendering that writes in every block a
    marker line with a newline after it, and mid-rule offsets that stay
    machine indexes, [wide_table] returns its text, whatever the options. *)
Lemma wide_table_returns {column : Type} (to_latex : list column -> string)
    (table : list column) (no_cols : Z) (landscape center : bool)
    (midrules : option (list Z)) (N : Z) :
  no_cols <> 0 ->
  (forall subtable, ended_within N (to_latex subtable)) ->
  offsets_fit N (match midrules with None => [] | Some m => m end) ->
  exists out,
    wide_table to_latex table no_cols landscape center midrules = Ok out.
Proof.
  intros HW Hrender Hms.
  destruct (generate_subtables_returns table no_cols HW) as [subtables E].
  rewrite wide_table_decorated, decorated_blocks_midrules, E. cbn [bind].
  assert (H0 : Forall (ended_within N) (latex_subtables to_latex subtables)).
  { unfold latex_subtables. apply Forall_map, Forall_forall. intros p _. apply Hrender. }
  assert (H1 : exists centered,
    (if center then
       insert_command (wrap_table (latex_subtables to_latex subtables) "table")
                      "\centering" 0
     else Ok (latex_subtables to_latex subtables)) = Ok centered
    /\ Forall (ended_within (N + 3)) centered).
  { destruct center.
    - destruct (insert_command_returns
                  (wrap_table (latex_subtables to_latex subtables) "table")
                  "\centering" 0 (N + 2) eq_refl) as (centered & Ec & Hc).
      + now apply wrap_table_ended_within.
      + apply Forall_forall. intros b _. apply row_fits_0.
      + exists centered. split; [exact Ec|].
        eapply ended_within_le; [|exact Hc]. lia.
    - eexists. split; [reflexivity|].
      eapply ended_within_le; [|exact H0]. lia. }
  destruct H1 as (centered & -> & Hc). cbn [bind].
  destruct (insert_midrules_returns
              (if landscape then wrap_table centered "landscape" else centered)
              (match midrules with None => [] | Some m => m end) (N + 5))
    as (blocks & ->).
  - destruct landscape.
    + replace (N + 5) with (N + 3 + 2) by lia.
      now apply wrap_table_ended_within.
    + eapply ended_within_le; [|exact Hc]. lia.
  - eapply Forall_impl; [|exact Hms]. cbn beta. intros m [Hlo Hhi]. lia.
  - eexists. reflexivity.
Qed.

(** * The properties of the specification *)

(** ** Partitioner *)

(** C1 (what the code does where the claim asks for no remainder partition):
    when the width [W] divides the number of columns [C] exactly, with
    [0 < W <= C], [generate_subtables] returns the [Q = C / W] partitions of
    [W] columns each, which together are the whole table, and after them one
    more partition, the whole table again: [Q + 1] partitions, not [Q].  The
    slice [table.iloc[:, -remainder:]] is [table.iloc[:, 0:]] when the
    remainder is 0. *)
Theorem generate_subtables_divisible_width {column : Type}
    (table : list column) (W : Z) :
  0 < W <= cols table -> cols table mod W = 0 ->
  generate_subtables table W
  = Ok (full_partitions table W (cols table / W) ++ [table])
  /\ Forall (fun p => Z.of_nat (List.length p) = W)
            (full_partitions table W (cols table / W))
  /\ List.concat (full_partitions table W (cols table / W)) = table
  /\ Z.of_nat (List.length (full_partitions table W (cols table / W) ++ [table]))
     = cols table / W + 1.
Proof.
  intros HW HR.
  assert (HQ : 0 <= cols table / W) by (apply Z.div_pos; lia).
  split; [apply generate_subtables_no_remainder; lia|].
  split; [apply Forall_length_full_partitions; lia|].
  split.
  - rewrite <- (Z2Nat.id (cols table / W)) at 1 by exact HQ.
    rewrite concat_full_partitions, Z2Nat.id by lia.
    replace (cols table / W * W) with (cols table).
    + apply columns_all.
    + pose proof (Z.div_mod (cols table) W). lia.
  - rewrite length_app, length_full_partitions. simpl. lia.
Qed.

(** Eight columns and the width 4: two partitions of four columns and then
    all eight columns once more. *)
Lemma generate_subtables_divisible_width_witness :
  (0 < 4 <= cols cols8 /\ cols cols8 mod 4 = 0)
  /\ generate_subtables cols8 4
     = Ok [[0; 1; 2; 3]; [4; 5; 6; 7]; [0; 1; 2; 3; 4; 5; 6; 7]]%nat.
Proof.
  split; [vm_compute; intuition discriminate|].
  apply (generate_subtables_divisible_width cols8 4); vm_compute;
    intuition discriminate.
Defined.

(** C2: for [0 < W <= C] and a remainder [R = C mod W > 0],
    [generate_subtables] returns [Q = C / W] full partitions, the [k]-th
    being the columns [k * W, (k + 1) * W), each of [W] columns and together
    the columns [0, Q * W), and after them one partition, the columns
    [C - R, C): [Q + 1] partitions. *)
Theorem generate_subtables_remainder_partition {column : Type}
    (table : list column) (W : Z) :
  0 < W <= cols table -> 0 < cols table mod W ->
  exists full remainder,
    generate_subtables table W = Ok (full ++ [remainder])
    /\ Z.of_nat (List.length full) = cols table / W
    /\ (forall k, (k < List.length full)%nat ->
          nth_error full k
          = Some (columns table (Z.of_nat k * W) ((Z.of_nat k + 1) * W)))
    /\ Forall (fun p => Z.of_nat (List.length p) = W) full
    /\ List.concat full = columns table 0 (cols table / W * W)
    /\ remainder = columns table (cols table - cols table mod W) (cols table)
    /\ Z.of_nat (List.length (full ++ [remainder])) = cols table / W + 1.
Proof.
  intros HW HR.
  assert (HQ : 0 <= cols table / W) by (apply Z.div_pos; lia).
  exists (full_partitions table W (cols table / W)),
         (columns table (cols table - cols table mod W) (cols table)).
  split; [now apply generate_subtables_with_remainder|].
  split; [rewrite length_full_partitions; lia|].
  split.
  { intros k Hk. rewrite length_full_partitions in Hk.
    now apply nth_error_full_partitions. }
  split; [apply Forall_length_full_partitions; lia|].
  split.
  { rewrite <- (Z2Nat.id (cols table / W)) at 1 by exact HQ.
    rewrite concat_full_partitions, Z2Nat.id by lia. reflexivity. }
  split; [reflexivity|].
  rewrite length_app, length_full_partitions. simpl. lia.
Qed.

(** Ten columns and the width 4. *)
Lemma generate_subtables_remainder_partition_witness :
  exists full remainder,
    generate_subtables cols10 4 = Ok (full ++ [remainder])
    /\ Z.of_nat (List.length full) = cols cols10 / 4
    /\ (forall k, (k < List.length full)%nat ->
          nth_error full k
          = Some (columns cols10 (Z.of_nat k * 4) ((Z.of_nat k + 1) * 4)))
    /\ Forall (fun p => Z.of_nat (List.length p) = 4) full
    /\ List.concat full = columns cols10 0 (cols cols10 / 4 * 4)
    /\ remainder = columns cols10 (cols cols10 - cols cols10 mod 4) (cols cols10)
    /\ Z.of_nat (List.length (full ++ [remainder])) = cols cols10 / 4 + 1.
Proof.
  apply (generate_subtables_remainder_partition cols10 4); vm_compute;
    intuition discriminate.
Defined.

(** C3 (amended): a width of 0 makes [generate_subtables] fail, with the
    [ZeroDivisionError] of [divmod], its only failure; a negative width is
    not rejected: the call returns one partition, the table without its
    first [-(C mod W)] columns. *)
Theorem generate_subtables_nonpositive_width {column : Type}
    (table : list column) (W : Z) :
  W <= 0 ->
  generate_subtables table W
  = if W =? 0 then Raise ZeroDivisionError
    else Ok [skipn (Z.to_nat (- (cols table mod W))) table].
Proof.
  intros HW. destruct (Z.eqb_spec W 0) as [->|Hne].
  - apply generate_subtables_zero.
  - apply generate_subtables_negative. lia.
Qed.

(** Five columns, and the widths 0 and -2. *)
Lemma generate_subtables_nonpositive_width_witness :
  generate_subtables cols5 0 = Raise ZeroDivisionError
  /\ generate_subtables cols5 (-2)
     = Ok [skipn (Z.to_nat (- (cols cols5 mod (-2)))) cols5].
Proof.
  split.
  - apply (generate_subtables_nonpositive_width cols5 0). lia.
  - apply (generate_subtables_nonpositive_width cols5 (-2)). lia.
Defined.

(** C3 as stated fails: with the width -2 a table of five columns is split
    into one partition, its last four columns, and nothing is raised. *)
Lemma generate_subtables_negative_width_returns :
  -2 <= 0 /\ generate_subtables cols5 (-2) = Ok [[1; 2; 3; 4]%nat].
Proof. split; [lia|reflexivity]. Qed.

(** C7: a width above the number of columns gives no full partition and one
    partition, the whole table. *)
Theorem generate_subtables_width_above_columns {column : Type}
    (table : list column) (W : Z) :
  cols table < W ->
  full_partitions table W (cols table / W) = []
  /\ generate_subtables table W = Ok [table].
Proof.
  intros HW. split; [|now apply generate_subtables_wide].
  assert (H0 : 0 <= cols table) by (unfold cols; lia).
  rewrite Z.div_small by lia. reflexivity.
Qed.

(** Five columns and the width 7. *)
Lemma generate_subtables_width_above_columns_witness :
  cols cols5 < 7
  /\ full_partitions cols5 7 (cols cols5 / 7) = []
  /\ generate_subtables cols5 7 = Ok [cols5].
Proof.
  split; [reflexivity|].
  apply (generate_subtables_width_above_columns cols5 7). reflexivity.
Defined.

(** ** Decorator *)

(** C4 (amended): when a block of the list has no line equal to the
    top-rule marker, [insert_command] returns nothing.  It raises the
    [IndexError] of [top_rule[0]] (the specification's malformed-markup
    error) when for every block ahead of that one the marker's position plus
    the row is an index [list.insert] takes, so always when that block is
    the first; otherwise what it raises is that [IndexError] or the
    [OverflowError] of an insertion into a block ahead. *)
Theorem insert_command_without_marker (ahead : list string) (block : string)
    (behind : list string) (command : string) (row : Z) :
  ~ has_toprule block ->
  (exists e,
     insert_command (ahead ++ block :: behind) command row = Raise e
     /\ (e = IndexError \/ e = OverflowError))
  /\ (Forall (row_fits row) ahead ->
      insert_command (ahead ++ block :: behind) command row = Raise IndexError).
Proof.
  intros Hb. split.
  - destruct (insert_command (ahead ++ block :: behind) command row)
      as [out|e] eqn:E.
    + exfalso. apply insert_command_Ok in E.
      apply Forall2_app_inv_l in E as (o1 & o2 & _ & E2 & _).
      inversion E2 as [|? b' ? ? Hb' _]; subst.
      rewrite insert_in_block_no_marker in Hb' by exact Hb. discriminate.
    + exists e. split; [reflexivity|]. now apply insert_command_Raise in E.
  - intros Hfit. induction Hfit as [|b ahead Hfb _ IH]; cbn [app];
      rewrite insert_command_cons.
    + now rewrite insert_in_block_no_marker.
    + destruct (first_index toprule (lines b)) as [t|] eqn:Et.
      * assert (Eb : insert_in_block command row b
                     = Ok (unlines (place (lines b) (Z.of_nat t + row) command))).
        { apply insert_in_block_Ok. exists t.
          split; [exact Et|split; [now apply Hfb|reflexivity]]. }
        rewrite Eb, IH. reflexivity.
      * apply first_index_None in Et.
        now rewrite insert_in_block_no_marker.
Qed.

(** A rendered block ahead of a block without a marker line, and the
    row 3. *)
Lemma insert_command_without_marker_witness :
  (exists e,
     insert_command
       ([render_nat cols5]
        ++ ("\begin{tabular}" ++ NL ++ "row" ++ NL)%string :: [])
       "\midrule" 3 = Raise e
     /\ (e = IndexError \/ e = OverflowError))
  /\ insert_command
       ([render_nat cols5]
        ++ ("\begin{tabular}" ++ NL ++ "row" ++ NL)%string :: [])
       "\midrule" 3 = Raise IndexError.
Proof.
  destruct (insert_command_without_marker
              [render_nat cols5] ("\begin{tabular}" ++ NL ++ "row" ++ NL)%string
              [] "\midrule" 3) as [H1 H2].
  - unfold has_toprule, toprule. vm_compute. intuition discriminate.
  - split; [exact H1|]. apply H2.
    constructor; [|constructor].
    apply row_fits_bounds; vm_compute; discriminate.
Defined.

(** C4 as stated fails when the insertion into a block ahead overflows: the
    first block has a marker, and its position plus the row [2 ^ 63] is no
    machine index, so [list.insert] raises [OverflowError] before the block
    without a marker is looked at. *)
Lemma insert_command_overflow_ahead :
  ~ has_toprule "no marker"
  /\ insert_command [("\toprule" ++ NL ++ "row")%string; "no marker"]
                    "\midrule" (2 ^ 63)
     = Raise OverflowError.
Proof.
  split; [|reflexivity].
  unfold has_toprule, toprule. vm_compute. intuition discriminate.
Qed.

(** C6: when every block has a marker line, [insert_command] at offset 0
    returns, for each block, the block with the command as a new line just
    above its first marker line: the lines above that marker and the lines
    from it on are as they were.  (The returned text is stated as it is; it
    splits into these lines when the command is a single line.) *)
Theorem insert_command_above_marker (latex_tables : list string)
    (command : string) :
  Forall has_toprule latex_tables ->
  exists out,
    insert_command latex_tables command 0 = Ok out
    /\ Forall2
         (fun block block' =>
            exists before after,
              first_marker block before after
              /\ block' = unlines (before ++ command :: toprule :: after)
              /\ (single_line command = true ->
                  lines block' = before ++ command :: toprule :: after))
         latex_tables out.
Proof.
  intros H. induction H as [|b bs Hb _ (out & Hout & IH)].
  - exists []. split; [reflexivity|constructor].
  - destruct (has_toprule_first_marker _ Hb) as (before & after & Hm).
    exists (unlines (before ++ command :: toprule :: after) :: out). split.
    + rewrite insert_command_cons, (insert_in_block_row_0 _ _ _ _ Hm), Hout.
      reflexivity.
    + constructor; [|exact IH].
      exists before, after. split; [exact Hm|]. split; [reflexivity|].
      intros Hc. apply (lines_of_built _ b command Hc).
      exists before, (toprule :: after). split; [apply Hm|reflexivity].
Qed.

(** The centering directive in one rendered block. *)
Lemma insert_command_above_marker_witness :
  exists out,
    insert_command [render_nat cols5] "\centering" 0 = Ok out
    /\ Forall2
         (fun block block' =>
            exists before after,
              first_marker block before after
              /\ block' = unlines (before ++ "\centering" :: toprule :: after)
              /\ (single_line "\centering" = true ->
                  lines block' = before ++ "\centering" :: toprule :: after))
         [render_nat cols5] out.
Proof.
  apply (insert_command_above_marker [render_nat cols5] "\centering").
  constructor; [|constructor].
  unfold has_toprule, toprule. vm_compute. intuition.
Defined.

(** C5 (amended): when in every block the first marker line has at least one
    line below it, the mid-rule loop of [wide_table] run on the offsets
    [2, 2] returns, for each block, the block with two [\midrule] lines at
    the positions 2 and 3 below the marker: the marker and the line after it
    stay, then come the two directives, then the rest. *)
Theorem insert_midrules_2_2 (latex_tables : list string) :
  Forall (fun block => exists before next rest,
            first_marker block before (next :: rest)) latex_tables ->
  exists out,
    insert_midrules latex_tables [2; 2] = Ok out
    /\ Forall2
         (fun block block' =>
            exists before next rest,
              first_marker block before (next :: rest)
              /\ lines block'
                 = before ++ toprule :: next :: "\midrule" :: "\midrule" :: rest
              /\ nth_error (lines block') (List.length before) = Some toprule
              /\ nth_error (lines block') (List.length before + 2) = Some "\midrule"
              /\ nth_error (lines block') (List.length before + 3) = Some "\midrule")
         latex_tables out.
Proof.
  intros H. rewrite insert_midrules_two.
  assert (G : exists once out,
    insert_command latex_tables "\midrule" (2 + 0) = Ok once
    /\ insert_command once "\midrule" (2 + 1) = Ok out
    /\ Forall2
         (fun block block' =>
            exists before next rest,
              first_marker block before (next :: rest)
              /\ lines block'
                 = before ++ toprule :: next :: "\midrule" :: "\midrule" :: rest)
         latex_tables out).
  { induction H as [|b bs (before & next & rest & Hm) _ (once & out & H1 & H2 & IH)].
    - exists [], []. repeat split; constructor.
    - pose proof (insert_in_block_below "\midrule" (2 + 0) b before [next] rest
                    Hm eq_refl) as E1.
      set (b1 := unlines (before ++ toprule :: [next] ++ "\midrule" :: rest)) in *.
      assert (L1 : lines b1 = before ++ toprule :: [next] ++ "\midrule" :: rest).
      { apply (lines_of_built _ b "\midrule" eq_refl).
        exists (before ++ [toprule; next]), rest. destruct Hm as [E _].
        rewrite E, <- !app_assoc. split; reflexivity. }
      assert (Hm1 : first_marker b1 before ([next; "\midrule"] ++ rest)).
      { split; [exact L1|apply Hm]. }
      pose proof (insert_in_block_below "\midrule" (2 + 1) b1 before
                    [next; "\midrule"] rest Hm1 eq_refl) as E2.
      set (b2 := unlines (before ++ toprule :: [next; "\midrule"]
                          ++ "\midrule" :: rest)) in *.
      assert (L2 : lines b2
                   = before ++ toprule :: [next; "\midrule"] ++ "\midrule" :: rest).
      { apply (lines_of_built _ b1 "\midrule" eq_refl).
        exists (before ++ [toprule; next; "\midrule"]), rest.
        rewrite L1, <- !app_assoc. split; reflexivity. }
      exists (b1 :: once), (b2 :: out). split; [|split].
      + rewrite insert_command_cons, E1, H1. reflexivity.
      + rewrite insert_command_cons, E2, H2. reflexivity.
      + constructor; [|exact IH].
        exists before, next, rest. split; [exact Hm|exact L2]. }
  destruct G as (once & out & H1 & H2 & HF).
  exists out. rewrite H1. split; [exact H2|].
  eapply Forall2_impl; [|exact HF].
  intros b b' (before & next & rest & Hm & L).
  exists before, next, rest. split; [exact Hm|]. split; [exact L|].
  rewrite L. repeat split.
  - rewrite nth_error_app2, Nat.sub_diag by lia. reflexivity.
  - rewrite nth_error_app2 by lia.
    replace (List.length before + 2 - List.length before)%nat with 2%nat by lia.
    reflexivity.
  - rewrite nth_error_app2 by lia.
    replace (List.length before + 3 - List.length before)%nat with 3%nat by lia.
    reflexivity.
Qed.

(** One rendered block: five lines stand below its marker. *)
Lemma insert_midrules_2_2_witness :
  exists out,
    insert_midrules [render_nat cols5] [2; 2] = Ok out
    /\ Forall2
         (fun block block' =>
            exists before next rest,
              first_marker block before (next :: rest)
              /\ lines block'
                 = before ++ toprule :: next :: "\midrule" :: "\midrule" :: rest
              /\ nth_error (lines block') (List.length before) = Some toprule
              /\ nth_error (lines block') (List.length before + 2) = Some "\midrule"
              /\ nth_error (lines block') (List.length before + 3) = Some "\midrule")
         [render_nat cols5] out.
Proof.
  apply (insert_midrules_2_2 [render_nat cols5]).
  constructor; [|constructor].
  exists ["\begin{tabular}"], "head",
         ["\midrule"; "row"; "\bottomrule"; "\end{tabular}"; ""].
  split; [reflexivity|]. simpl. unfold toprule. intuition discriminate.
Defined.

(** C5 as stated fails on a block that ends with its marker line: both
    insertion positions lie past the end of the list of lines, where
    [list.insert] appends, and the two directives are the lines 1 and 2 below
    the marker; there is no line 3. *)
Lemma insert_midrules_2_2_short_block :
  has_toprule "\toprule"
  /\ exists block',
       insert_midrules ["\toprule"] [2; 2] = Ok [block']
       /\ lines block' = ["\toprule"; "\midrule"; "\midrule"]
       /\ nth_error (lines block') 1 = Some "\midrule"
       /\ nth_error (lines block') 3 = None.
Proof.
  split; [now left|].
  exists (unlines ["\toprule"; "\midrule"; "\midrule"]).
  repeat split.
Qed.

(** C10 (amended): a wrapped block starts with the lines of the open
    directive, which stands on its own; the close directive is written
    straight after the block's last line, so it starts a line of its own
    exactly when that last line is empty, which is when the block is empty
    or ends with a newline; after a non-empty block that does not end with a
    newline it continues the block's last line.  (For a container name
    without a newline each directive is a single line.) *)
Theorem wrap_table_close_directive (latex_tables : list string)
    (container : string) :
  Forall2
    (fun lt wrapped =>
       lines wrapped
       = lines (begin_ container)
         ++ removelast (lines lt)
         ++ (last (lines lt) "" ++ hd "" (lines (end_ container)))%string
            :: tl (lines (end_ container)) ++ [""]
       /\ (last (lines lt) "" = "" <-> lt = "" \/ endswith lt LF = true))
    latex_tables (wrap_table latex_tables container).
Proof.
  rewrite wrap_table_map.
  induction latex_tables as [|lt lts IH]; simpl; constructor; [|exact IH].
  split; [apply lines_wrapped_any|apply last_line_empty].
Qed.

(** C10 as stated fails on the empty block: it does not end with a newline,
    and the close directive is a line of its own. *)
Lemma wrap_table_empty_block :
  endswith "" LF = false
  /\ exists wrapped,
       wrap_table [""] "table" = [wrapped]
       /\ lines wrapped = ["\begin{table}"; "\end{table}"; ""].
Proof.
  split; [reflexivity|].
  exists (unlines ["\begin{table}"; "\end{table}"; ""]). split; reflexivity.
Qed.

(** ** Orchestrator *)

(** C8: with [center] and [landscape] both on, whenever [wide_table] returns
    its text, that text combines one decorated block per partition, and in
    every one of these blocks the line [\begin{landscape}] first occurs
    above the first line [\begin{table}], whatever the mid-rule offsets. *)
Theorem wide_table_landscape_outside_table {column : Type}
    (to_latex : list column -> string) (table : list column) (no_cols : Z)
    (midrules : option (list Z)) (out : string) :
  wide_table to_latex table no_cols true true midrules = Ok out ->
  exists subtables blocks,
    generate_subtables table no_cols = Ok subtables
    /\ decorated_blocks to_latex table no_cols true true midrules = Ok blocks
    /\ out = combine_subtables blocks
    /\ List.length blocks = List.length subtables
    /\ Forall landscape_outside_table blocks.
Proof.
  rewrite wide_table_decorated.
  destruct (decorated_blocks _ _ _ _ _ _) as [blocks|e] eqn:E; [|discriminate].
  simpl. intros [= <-].
  rewrite decorated_blocks_midrules in E.
  destruct (generate_subtables table no_cols) as [subtables|e]; [|discriminate].
  cbn [bind] in E.
  destruct (insert_command _ "\centering" 0) as [centered|e] eqn:Ec; [|discriminate].
  cbn [bind] in E.
  exists subtables, blocks. repeat split.
  - rewrite (insert_midrules_length _ _ _ E).
    unfold wrap_table at 1. rewrite length_map.
    rewrite (insert_command_length _ _ _ _ Ec).
    unfold wrap_table, latex_subtables. now rewrite !length_map.
  - apply (landscape_outside_table_loop _ _ _ E).
    apply landscape_pass_blocks. exact (center_pass_blocks _ _ Ec).
Qed.

(** Ten columns, the width 4 and the mid-rules [2, 2]: three blocks. *)
Lemma wide_table_landscape_outside_table_witness :
  exists subtables blocks,
    generate_subtables cols10 4 = Ok subtables
    /\ decorated_blocks render_nat cols10 4 true true (Some [2; 2]) = Ok blocks
    /\ combine_subtables
         (map (fun _ : nat =>
                 unlines ["\begin{landscape}"; "\begin{table}";
                          "\begin{tabular}"; "\centering"; "\toprule"; "head"; "\midrule";
                          "\midrule"; "\midrule"; "row"; "\bottomrule";
                          "\end{tabular}"; "\end{table}"; "\end{landscape}"; ""])
              [0; 1; 2]%nat)
       = combine_subtables blocks
    /\ List.length blocks = List.length subtables
    /\ Forall landscape_outside_table blocks.
Proof.
  apply (wide_table_landscape_outside_table render_nat cols10 4 (Some [2; 2])).
  vm_compute. reflexivity.
Defined.

(** C9: with [center] and [landscape] off and no mid-rule ([None] or the
    empty list), [wide_table] returns, for a width other than 0, the rendered
    partitions one after the other, each straight after a page-break
    directive on a line of its own, and nothing else. *)
Theorem wide_table_plain {column : Type} (to_latex : list column -> string)
    (table : list column) (no_cols : Z) :
  no_cols <> 0 ->
  exists subtables,
    generate_subtables table no_cols = Ok subtables
    /\ wide_table to_latex table no_cols false false None
       = Ok (page_broken (map to_latex subtables))
    /\ wide_table to_latex table no_cols false false (Some [])
       = Ok (page_broken (map to_latex subtables)).
Proof.
  intros H. destruct (generate_subtables_returns table no_cols H) as [subtables E].
  exists subtables. split; [exact E|].
  rewrite !wide_table_decorated, !decorated_blocks_midrules, E.
  cbn [bind]. rewrite insert_midrules_nil. cbn [bind].
  rewrite combine_subtables_page_broken. split; reflexivity.
Qed.

(** Ten columns and the width 4. *)
Lemma wide_table_plain_witness :
  exists subtables,
    generate_subtables cols10 4 = Ok subtables
    /\ wide_table render_nat cols10 4 false false None
       = Ok (page_broken (map render_nat subtables))
    /\ wide_table render_nat cols10 4 false false (Some [])
       = Ok (page_broken (map render_nat subtables)).
Proof.
  apply (wide_table_plain render_nat cols10 4). discriminate.
Defined.

(** * Further properties of the module *)

(** ** Partitioner *)

(** X1: for a positive width that leaves a remainder, the partitions that
    [generate_subtables] returns, put end to end, are the table: every
    column is in exactly one partition, in its place. *)
Theorem generate_subtables_concat {column : Type} (table : list column)
    (W : Z) :
  0 < W -> 0 < cols table mod W ->
  exists subtables,
    generate_subtables table W = Ok subtables
    /\ List.concat subtables = table.
Proof.
  intros HW HR.
  assert (H0 : 0 <= cols table) by (unfold cols; lia).
  assert (HQ : 0 <= cols table / W) by (apply Z.div_pos; lia).
  pose proof (Z.mod_le (cols table) W H0 HW) as Hle.
  pose proof (Z.div_mod (cols table) W ltac:(lia)) as Hdm.
  eexists. split; [now apply generate_subtables_positive|].
  fold (cols table). rewrite concat_app.
  rewrite <- (Z2Nat.id (cols table / W)) at 1 by exact HQ.
  rewrite concat_full_partitions, Z2Nat.id by lia.
  rewrite slice_from_last by (fold (cols table); lia).
  fold (cols table). cbn [List.concat]. rewrite app_nil_r.
  replace (cols table - cols table mod W) with (cols table / W * W) by lia.
  rewrite columns_app by lia. apply columns_all.
Qed.

(** Ten columns and the width 4. *)
Lemma generate_subtables_concat_witness :
  exists subtables,
    generate_subtables cols10 4 = Ok subtables
    /\ List.concat subtables = cols10.
Proof.
  apply (generate_subtables_concat cols10 4); reflexivity.
Defined.

(** X2: [generate_subtables] raises for the width 0 and for no other, and
    what it raises is [ZeroDivisionError]; for every other width, negative
    ones too, it returns at least one partition. *)
Theorem generate_subtables_raises_for_zero_only {column : Type}
    (table : list column) (W : Z) (e : exn) :
  (generate_subtables table W = Raise e <-> W = 0 /\ e = ZeroDivisionError)
  /\ ((exists subtables,
         generate_subtables table W = Ok subtables /\ subtables <> [])
      <-> W <> 0).
Proof.
  destruct (Z.lt_total W 0) as [Hn|[->|Hp]].
  - rewrite generate_subtables_negative by exact Hn. split; split.
    + discriminate.
    + lia.
    + lia.
    + intros _. eexists. split; [reflexivity|discriminate].
  - rewrite generate_subtables_zero. split; split.
    + intros [= <-]. now split.
    + now intros [_ ->].
    + intros (s & E & _). discriminate.
    + congruence.
  - rewrite generate_subtables_positive by exact Hp. split; split.
    + discriminate.
    + lia.
    + lia.
    + intros _. eexists. split; [reflexivity|].
      now destruct (full_partitions _ _ _).
Qed.

(** ** Command insertion *)

(** The loop of [insert_command], block by block, for a property of the
    block and what is made of it. *)
Lemma insert_command_blockwise (P : string -> string -> Prop)
    (bs : list string) (command : string) (row : Z) :
  Forall (fun b => exists b', insert_in_block command row b = Ok b' /\ P b b') bs ->
  exists out, insert_command bs command row = Ok out /\ Forall2 P bs out.
Proof.
  intros H. induction H as [|b bs (b' & Eb & Hb) _ (out & Hout & IH)].
  - exists []. split; [reflexivity|constructor].
  - exists (b' :: out). rewrite insert_command_cons, Eb, Hout.
    split; [reflexivity|now constructor].
Qed.

(** X3: [insert_command] returns exactly when every block has a line equal
    to the marker and, in every block, the position of the first marker plus
    the row is an index [list.insert] takes (it lies in
    [ssize_t_min..ssize_t_max]); it then returns as many blocks as it was
    given. *)
Theorem insert_command_returns_iff (latex_tables : list string)
    (command : string) (row : Z) :
  (exists out,
     insert_command latex_tables command row = Ok out
     /\ List.length out = List.length latex_tables)
  <-> Forall has_toprule latex_tables /\ Forall (row_fits row) latex_tables.
Proof.
  split.
  - intros (out & E & _). apply insert_command_Ok in E.
    induction E as [|b b' bs out Hb _ [IH1 IH2]]; [split; constructor|].
    apply insert_in_block_Ok in Hb as (t & Ht & Hfit & _).
    split; constructor; try assumption.
    + apply first_index_Some in Ht as (before & after & E & _).
      unfold has_toprule. rewrite E. apply in_elt.
    + intros t' Ht'. rewrite Ht in Ht'. now injection Ht' as <-.
  - intros [H Hfit].
    destruct (insert_command_blockwise (fun _ _ => True) latex_tables command row)
      as (out & E & _).
    + apply Forall_forall. intros b Hin.
      rewrite Forall_forall in H, Hfit.
      destruct (first_index_In _ _ (H b Hin)) as [t Ht].
      eexists. split; [|exact I].
      apply insert_in_block_Ok. exists t.
      split; [exact Ht|split; [now apply (Hfit b Hin)|reflexivity]].
    + exists out. split; [exact E|now apply insert_command_length in E].
Qed.

(** X4: whatever the row, negative or past the end, [insert_command] with a
    one-line command keeps the lines of each block, in their order, and
    puts the command among them as one new line. *)
Theorem insert_command_keeps_lines (latex_tables out : list string)
    (command : string) (row : Z) :
  single_line command = true ->
  insert_command latex_tables command row = Ok out ->
  Forall2
    (fun block block' =>
       exists k,
         (k <= List.length (lines block))%nat
         /\ lines block'
            = firstn k (lines block) ++ command :: skipn k (lines block))
    latex_tables out.
Proof.
  intros Hc E. apply insert_command_Ok in E.
  eapply Forall2_impl; [|exact E].
  intros b b' Hb. apply insert_in_block_Ok in Hb as (t & _ & _ & ->).
  rewrite lines_unlines_place by exact Hc.
  apply place_somewhere.
Qed.

(** A rendered block, and the row -7, which lies above its first line. *)
Lemma insert_command_keeps_lines_witness :
  Forall2
    (fun block block' =>
       exists k,
         (k <= List.length (lines block))%nat
         /\ lines block'
            = firstn k (lines block) ++ "\hline" :: skipn k (lines block))
    [render_nat cols5]
    [unlines ["\begin{tabular}"; "\toprule"; "\hline"; "head"; "\midrule";
              "row"; "\bottomrule"; "\end{tabular}"; ""]].
Proof.
  apply (insert_command_keeps_lines [render_nat cols5] _ "\hline" (-7));
    reflexivity.
Defined.

Lemma unlines_snoc (ls : list string) (l : string) :
  ls <> [] -> unlines (ls ++ [l]) = (unlines ls ++ NL ++ l)%string.
Proof.
  induction ls as [|x ls IH]; [contradiction|]. intros _.
  destruct ls as [|y ls].
  - reflexivity.
  - change ((x :: y :: ls) ++ [l]) with (x :: (y :: ls) ++ [l]).
    rewrite !unlines_cons by discriminate.
    rewrite IH by discriminate. now rewrite !append_assoc.
Qed.

Lemma place_at_end {X : Type} (l : list X) (i : Z) (x : X) :
  Z.of_nat (List.length l) <= i -> place l i x = l ++ [x].
Proof.
  intros H. unfold place, clip.
  assert (E : (i <? 0) = false) by lia. rewrite E.
  replace (Z.min i (Z.of_nat (List.length l))) with (Z.of_nat (List.length l)) by lia.
  now rewrite Nat2Z.id, firstn_all, skipn_all.
Qed.

Lemma place_before_last {X : Type} (l : list X) (x d : X) :
  l <> [] -> place l (-1) x = removelast l ++ [x; last l d].
Proof.
  intros H. destruct (exists_last H) as (r & y & ->).
  rewrite removelast_last, last_last.
  unfold place, clip. cbn [Z.ltb Z.compare].
  replace (Z.to_nat (Z.max (-1 + Z.of_nat (List.length (r ++ [y]))) 0))
    with (List.length r) by (rewrite length_app; cbn [List.length]; lia).
  rewrite firstn_app, skipn_app, Nat.sub_diag, firstn_all, skipn_all.
  simpl. now rewrite app_nil_r.
Qed.

(** X5: a row that reaches past the last line of a block, with the marker's
    position plus the row still a machine index, raises nothing:
    [insert_command] writes the command after the block's text, as a new
    last line. *)
Theorem insert_command_past_the_end (latex_tables : list string)
    (command : string) (row : Z) :
  Forall (fun block => exists before after,
            first_marker block before after
            /\ Z.of_nat (List.length after) < row
            /\ Z.of_nat (List.length before) + row <= ssize_t_max)
         latex_tables ->
  exists out,
    insert_command latex_tables command row = Ok out
    /\ Forall2 (fun block block' => block' = (block ++ NL ++ command)%string)
               latex_tables out.
Proof.
  intros H. apply insert_command_blockwise.
  eapply Forall_impl; [|exact H].
  intros b (before & after & Hm & Hrow & Hmax).
  eexists. split.
  - apply (insert_in_block_marker _ _ _ _ _ Hm).
    apply index_fits_ssize. unfold ssize_t_min. lia.
  - rewrite place_at_end by (rewrite length_app; simpl; lia).
    destruct Hm as [E _]. rewrite <- E.
    rewrite unlines_snoc by apply lines_not_nil.
    now rewrite unlines_lines.
Qed.

(** A rendered block has six lines below its marker; the row is the
    largest that its marker, on the second line, allows. *)
Lemma insert_command_past_the_end_witness :
  exists out,
    insert_command [render_nat cols5] "\hline" (2 ^ 63 - 2) = Ok out
    /\ Forall2 (fun block block' => block' = (block ++ NL ++ "\hline")%string)
               [render_nat cols5] out.
Proof.
  apply (insert_command_past_the_end [render_nat cols5] "\hline" (2 ^ 63 - 2)).
  constructor; [|constructor].
  exists ["\begin{tabular}"],
         ["head"; "\midrule"; "row"; "\bottomrule"; "\end{tabular}"; ""].
  split; [|split; reflexivity].
  split; [reflexivity|]. simpl. unfold toprule. intuition discriminate.
Defined.

(** X6: a negative row that reaches one line above the first line of a
    block does not put the command at the top: the index is taken from the
    end, and the command becomes the line before the block's last line. *)
Theorem insert_command_above_first_line (latex_tables : list string)
    (command : string) (row : Z) :
  Forall (fun block => exists before after,
            first_marker block before after
            /\ Z.of_nat (List.length before) + row = -1) latex_tables ->
  exists out,
    insert_command latex_tables command row = Ok out
    /\ Forall2
         (fun block block' =>
            block' = unlines (removelast (lines block)
                              ++ [command; last (lines block) ""]))
         latex_tables out.
Proof.
  intros H. apply insert_command_blockwise.
  eapply Forall_impl; [|exact H].
  intros b (before & after & Hm & Hrow).
  eexists. split.
  - apply (insert_in_block_marker _ _ _ _ _ Hm).
    rewrite Hrow. apply index_fits_ssize. unfold ssize_t_min, ssize_t_max. lia.
  - rewrite Hrow. destruct Hm as [E _]. rewrite <- E.
    now rewrite (place_before_last _ _ "") by apply lines_not_nil.
Qed.

(** A rendered block, whose marker is its second line, and the row -2: the
    command lands above the empty line that ends the block. *)
Lemma insert_command_above_first_line_witness :
  exists out,
    insert_command [render_nat cols5] "\hline" (-2) = Ok out
    /\ Forall2
         (fun block block' =>
            block' = unlines (removelast (lines block)
                              ++ ["\hline"; last (lines block) ""]))
         [render_nat cols5] out.
Proof.
  apply (insert_command_above_first_line [render_nat cols5] "\hline" (-2)).
  constructor; [|constructor].
  exists ["\begin{tabular}"],
         ["head"; "\midrule"; "row"; "\bottomrule"; "\end{tabular}"; ""].
  split; [|reflexivity].
  split; [reflexivity|]. simpl. unfold toprule. intuition discriminate.
Defined.

(** Lists built with [++] and [::], brought to one shape. *)
Ltac app_normal :=
  repeat first [rewrite <- app_assoc | rewrite <- app_comm_cons].

(** Two runs of [insert_command], the second on what the first returned,
    block by block. *)
Lemma insert_command_twice_blockwise (R : string -> string -> Prop)
    (bs : list string) (command : string) (row1 row2 : Z) :
  Forall (fun b => exists b1 b2,
            insert_in_block command row1 b = Ok b1
            /\ insert_in_block command row2 b1 = Ok b2
            /\ R b b2) bs ->
  exists out,
    (once <- insert_command bs command row1 ;;
     insert_command once command row2) = Ok out
    /\ Forall2 R bs out.
Proof.
  intros H.
  assert (G : exists once out,
    insert_command bs command row1 = Ok once
    /\ insert_command once command row2 = Ok out
    /\ Forall2 R bs out).
  { induction H as [|b bs (b1 & b2 & E1 & E2 & HR) _ (once & out & H1 & H2 & IH)].
    - exists [], []. repeat split; constructor.
    - exists (b1 :: once), (b2 :: out). split; [|split].
      + rewrite insert_command_cons, E1, H1. reflexivity.
      + rewrite insert_command_cons, E2, H2. reflexivity.
      + now constructor. }
  destruct G as (once & out & H1 & H2 & HF).
  exists out. rewrite H1. now split.
Qed.

(** X7: two mid-rules at offsets in rising order: with [above] the lines
    between the marker and the first offset, and [between] the lines from
    there to the second offset, the mid-rule loop of [wide_table] returns
    the block with one directive after [above] and one after [between]:
    each directive stands above the line of the original block that its
    offset counts to. *)
Theorem insert_midrules_rising_pair (latex_tables : list string) (m0 m1 : Z) :
  Forall (fun block => exists before above between below,
            first_marker block before (above ++ between ++ below)
            /\ Z.of_nat (List.length above) = m0 - 1
            /\ Z.of_nat (List.length between) = m1 - m0) latex_tables ->
  exists out,
    insert_midrules latex_tables [m0; m1] = Ok out
    /\ Forall2
         (fun block block' =>
            exists before above between below,
              first_marker block before (above ++ between ++ below)
              /\ Z.of_nat (List.length above) = m0 - 1
              /\ Z.of_nat (List.length between) = m1 - m0
              /\ lines block'
                 = before ++ toprule :: above ++ "\midrule"
                   :: between ++ "\midrule" :: below)
         latex_tables out.
Proof.
  intros H. rewrite insert_midrules_two.
  apply insert_command_twice_blockwise.
  eapply Forall_impl; [|exact H].
  intros b (before & above & between & below & Hm & Ha & Hb).
  pose proof (insert_in_block_below "\midrule" (m0 + 0) b before above
                (between ++ below) Hm ltac:(lia)) as E1.
  set (b1 := unlines (before ++ toprule :: above ++ "\midrule"
                      :: between ++ below)) in *.
  assert (L1 : lines b1
               = before ++ toprule :: (above ++ "\midrule" :: between) ++ below).
  { transitivity (before ++ toprule :: above ++ "\midrule" :: between ++ below);
      [|now app_normal].
    apply (lines_of_built _ b "\midrule" eq_refl).
    exists (before ++ toprule :: above), (between ++ below).
    destruct Hm as [E _]. rewrite E. split; now app_normal. }
  assert (Hm1 : first_marker b1 before ((above ++ "\midrule" :: between) ++ below)).
  { split; [exact L1|apply Hm]. }
  pose proof (insert_in_block_below "\midrule" (m1 + 1) b1 before
                (above ++ "\midrule" :: between) below Hm1
                ltac:(rewrite length_app; cbn [List.length]; lia)) as E2.
  eexists _, _. split; [exact E1|]. split; [exact E2|].
  exists before, above, between, below.
  split; [exact Hm|]. split; [exact Ha|]. split; [exact Hb|].
  transitivity (before ++ toprule :: (above ++ "\midrule" :: between)
                ++ "\midrule" :: below); [|now app_normal].
  apply (lines_of_built _ b1 "\midrule" eq_refl).
  exists (before ++ toprule :: above ++ "\midrule" :: between), below.
  rewrite L1. split; now app_normal.
Qed.

(** A rendered block and the offsets 1 and 3: a rule above the head line
    and one above the data row. *)
Lemma insert_midrules_rising_pair_witness :
  exists out,
    insert_midrules [render_nat cols5] [1; 3] = Ok out
    /\ Forall2
         (fun block block' =>
            exists before above between below,
              first_marker block before (above ++ between ++ below)
              /\ Z.of_nat (List.length above) = 1 - 1
              /\ Z.of_nat (List.length between) = 3 - 1
              /\ lines block'
                 = before ++ toprule :: above ++ "\midrule"
                   :: between ++ "\midrule" :: below)
         [render_nat cols5] out.
Proof.
  apply (insert_midrules_rising_pair [render_nat cols5] 1 3).
  constructor; [|constructor].
  exists ["\begin{tabular}"], [], ["head"; "\midrule"],
         ["row"; "\bottomrule"; "\end{tabular}"; ""].
  split; [|split; reflexivity].
  split; [reflexivity|]. simpl. unfold toprule. intuition discriminate.
Defined.

(** ** Container wrap and center pass *)

Lemma insert_command_blockwise_map {X : Type} (f : X -> string)
    (P : X -> string -> Prop) (xs : list X) (command : string) (row : Z) :
  Forall (fun x => exists b', insert_in_block command row (f x) = Ok b' /\ P x b') xs ->
  exists out,
    insert_command (map f xs) command row = Ok out /\ Forall2 P xs out.
Proof.
  intros H. induction H as [|x xs (b' & Eb & Hb) _ (out & Hout & IH)].
  - exists []. split; [reflexivity|constructor].
  - exists (b' :: out). cbn [map]. rewrite insert_command_cons, Eb, Hout.
    split; [reflexivity|now constructor].
Qed.

(** A block whose marker line is followed by a newline has lines below its
    first marker. *)
Lemma toprule_line_ended_first_marker (block : string) :
  toprule_line_ended block ->
  exists before body final, first_marker block before (body ++ [final]).
Proof.
  intros H.
  destruct (has_toprule_first_marker _ (toprule_line_ended_has_toprule _ H))
    as (before & after & E & Hb).
  destruct after as [|a after].
  - exfalso. unfold toprule_line_ended in H.
    rewrite E, removelast_last in H. contradiction.
  - destruct (@exists_last _ (a :: after) ltac:(discriminate)) as (body & final & Ea).
    exists before, body, final. split; [now rewrite E, Ea|exact Hb].
Qed.

Lemma lines_wrapped_marker (container lt : string)
    (before body : list string) (final : string) :
  single_line container = true ->
  lines lt = before ++ toprule :: body ++ [final] ->
  lines (begin_ container ++ NL ++ lt ++ end_ container ++ NL)%string
  = (begin_ container :: before)
    ++ toprule :: body ++ [(final ++ end_ container)%string; ""].
Proof.
  intros Hc E. rewrite lines_wrapped by exact Hc. rewrite E.
  replace (before ++ toprule :: body ++ [final])
    with ((before ++ toprule :: body) ++ [final]) by now app_normal.
  rewrite removelast_last, last_last. now app_normal.
Qed.

(** X8: the center pass of [wide_table] ([wrap_table] with ["table"], then
    [insert_command] of [\centering] at row 0) returns for blocks whose
    marker line is followed by a newline, and writes [\centering] straight
    above the marker, below whatever the rendering wrote before it, not
    straight below [\begin{table}]; [\end{table}] follows the block's last
    line. *)
Theorem center_pass_lines (latex_tables : list string) :
  Forall toprule_line_ended latex_tables ->
  exists out,
    insert_command (wrap_table latex_tables "table") "\centering" 0 = Ok out
    /\ Forall2
         (fun lt block' =>
            exists before body final,
              first_marker lt before (body ++ [final])
              /\ lines block'
                 = "\begin{table}" :: before ++ "\centering" :: toprule
                   :: body ++ [(final ++ "\end{table}")%string; ""])
         latex_tables out.
Proof.
  intros H. rewrite wrap_table_map. apply insert_command_blockwise_map.
  eapply Forall_impl; [|exact H].
  intros lt Hlt.
  destruct (toprule_line_ended_first_marker lt Hlt) as (before & body & final & Hm).
  pose proof (lines_wrapped_marker "table" lt before body final eq_refl
                (proj1 Hm)) as L.
  set (w := (begin_ "table" ++ NL ++ lt ++ end_ "table" ++ NL)%string) in *.
  assert (Hw : first_marker w (begin_ "table" :: before)
                 (body ++ [(final ++ end_ "table")%string; ""])).
  { split; [exact L|]. intros [Hb|Hb]; [discriminate|]. now apply Hm. }
  eexists. split; [apply (insert_in_block_row_0 _ _ _ _ Hw)|].
  exists before, body, final. split; [exact Hm|].
  apply (lines_of_built _ w "\centering" eq_refl).
  exists (begin_ "table" :: before),
         (toprule :: body ++ [(final ++ end_ "table")%string; ""]).
  split; [exact L|reflexivity].
Qed.

(** One rendered block. *)
Lemma center_pass_lines_witness :
  exists out,
    insert_command (wrap_table [render_nat cols5] "table") "\centering" 0 = Ok out
    /\ Forall2
         (fun lt block' =>
            exists before body final,
              first_marker lt before (body ++ [final])
              /\ lines block'
                 = "\begin{table}" :: before ++ "\centering" :: toprule
                   :: body ++ [(final ++ "\end{table}")%string; ""])
         [render_nat cols5] out.
Proof.
  apply (center_pass_lines [render_nat cols5]).
  constructor; [|constructor].
  unfold toprule_line_ended, toprule. vm_compute. intuition.
Defined.

(** X9: wrapping a wrapped block: a wrapped block ends with a newline, so
    both directives of the outer container are lines of their own, around
    the lines of the inner one. *)
Theorem wrap_table_nested (latex_tables : list string) (inner outer : string) :
  single_line inner = true -> single_line outer = true ->
  Forall2
    (fun lt wrapped =>
       lines wrapped
       = begin_ outer :: begin_ inner
         :: removelast (lines lt)
         ++ [(last (lines lt) "" ++ end_ inner)%string; end_ outer; ""])
    latex_tables (wrap_table (wrap_table latex_tables inner) outer).
Proof.
  intros Hi Ho. rewrite !wrap_table_map, map_map.
  induction latex_tables as [|lt lts IH]; cbn [map]; constructor; [|exact IH].
  rewrite (lines_wrapped outer) by exact Ho.
  rewrite (lines_wrapped inner) by exact Hi.
  replace (begin_ inner :: removelast (lines lt)
           ++ [(last (lines lt) "" ++ end_ inner)%string; ""])
    with ((begin_ inner :: removelast (lines lt)
           ++ [(last (lines lt) "" ++ end_ inner)%string]) ++ [""])
    by now app_normal.
  rewrite removelast_last, last_last. now app_normal.
Qed.

(** A block that ends with a newline and one that does not, in a table
    container inside a landscape container. *)
Lemma wrap_table_nested_witness :
  Forall2
    (fun lt wrapped =>
       lines wrapped
       = begin_ "landscape" :: begin_ "table"
         :: removelast (lines lt)
         ++ [(last (lines lt) "" ++ end_ "table")%string; end_ "landscape"; ""])
    [render_nat cols5; "row"]
    (wrap_table (wrap_table [render_nat cols5; "row"] "table") "landscape").
Proof.
  apply (wrap_table_nested [render_nat cols5; "row"] "table" "landscape");
    reflexivity.
Defined.

Lemma endswith_snoc (x : string) (c : ascii) :
  endswith (x ++ String c "")%string c = true.
Proof.
  induction x as [|a x IH]; simpl.
  - apply Ascii.eqb_refl.
  - destruct x; exact IH.
Qed.

(** No line that ends with a close directive is the marker. *)
Lemma closed_line_not_toprule (l container : string) :
  (l ++ end_ container)%string <> toprule.
Proof.
  intros E.
  assert (H : endswith (l ++ end_ container)%string "}"%char = true).
  { unfold end_.
    replace (l ++ "\end{" ++ container ++ "}")%string
      with ((l ++ "\end{" ++ container) ++ "}")%string
      by (now rewrite !append_assoc).
    apply endswith_snoc. }
  rewrite E in H. discriminate.
Qed.

(** A wrapped block has a marker line exactly when the block has a marker
    line with a newline after it. *)
Lemma has_toprule_wrapped (container lt : string) :
  single_line container = true ->
  has_toprule (begin_ container ++ NL ++ lt ++ end_ container ++ NL)%string
  <-> toprule_line_ended lt.
Proof.
  intros Hc. unfold has_toprule, toprule_line_ended.
  rewrite lines_wrapped by exact Hc. split.
  - intros [H|H]; [discriminate|].
    apply in_app_or in H as [H|[H|[H|[]]]]; [exact H| |discriminate].
    now apply closed_line_not_toprule in H.
  - intros H. right. apply in_or_app. now left.
Qed.

(** X10: [wrap_table] keeps a block's marker line when a newline follows
    it, and only then: a marker that is the last line of a block, with no
    newline after it, is run together with the close directive and is no
    marker line of the wrapped block. *)
Theorem wrap_table_marker_line (latex_tables : list string)
    (container : string) :
  single_line container = true ->
  Forall2 (fun lt wrapped => has_toprule wrapped <-> toprule_line_ended lt)
          latex_tables (wrap_table latex_tables container).
Proof.
  intros Hc. rewrite wrap_table_map.
  induction latex_tables as [|lt lts IH]; cbn [map]; constructor; [|exact IH].
  now apply has_toprule_wrapped.
Qed.

(** A rendered block, and a block that ends with its marker. *)
Lemma wrap_table_marker_line_witness :
  Forall2 (fun lt wrapped => has_toprule wrapped <-> toprule_line_ended lt)
          [render_nat cols5; "\toprule"]
          (wrap_table [render_nat cols5; "\toprule"] "landscape").
Proof.
  apply (wrap_table_marker_line [render_nat cols5; "\toprule"] "landscape").
  reflexivity.
Defined.

(** ** Assembler and orchestrator *)

Lemma page_broken_app (a b : list string) :
  page_broken (a ++ b) = (page_broken a ++ page_broken b)%string.
Proof.
  induction a as [|x a IH]; [reflexivity|].
  cbn [app page_broken]. rewrite IH. now rewrite !append_assoc.
Qed.

(** X11: [combine_subtables] goes through a list block by block: the text
    for two lists one after the other is the text for the first followed by
    the text for the second, and the text for no block is empty. *)
Theorem combine_subtables_app (a b : list string) :
  combine_subtables [] = ""
  /\ combine_subtables (a ++ b)
     = (combine_subtables a ++ combine_subtables b)%string.
Proof.
  split; [reflexivity|].
  rewrite !combine_subtables_page_broken. apply page_broken_app.
Qed.

Lemma for_each_Raise {S X : Type} (Q : exn -> Prop) (items : list X)
    (body : S -> X -> result S) (s : S) (e : exn) :
  (forall s x e, body s x = Raise e -> Q e) ->
  for_each items body s = Raise e -> Q e.
Proof.
  intros Hbody. revert s. induction items as [|x items IH]; intros s; simpl.
  - discriminate.
  - destruct (body s x) as [s'|e'] eqn:E; simpl.
    + apply IH.
    + intros [= <-]. exact (Hbody _ _ _ E).
Qed.

Lemma insert_midrules_Raise (bs : list string) (midrules : list Z) (e : exn) :
  insert_midrules bs midrules = Raise e ->
  (e = IndexError \/ e = OverflowError) /\ midrules <> [].
Proof.
  intros H. split.
  - revert H. unfold insert_midrules.
    apply (for_each_Raise (fun e => e = IndexError \/ e = OverflowError)).
    intros s [count mr] e'. apply insert_command_Raise.
  - intros ->. discriminate.
Qed.

(** An overflow in one block: the row does not fit it. *)
Lemma insert_in_block_OverflowError (command : string) (row : Z)
    (block : string) :
  insert_in_block command row block = Raise OverflowError ->
  ~ row_fits row block.
Proof.
  unfold insert_in_block. intros H Hfit.
  destruct (first_index toprule (lines block)) as [t|] eqn:Et; [|discriminate].
  rewrite insert_fits in H by exact (Hfit t Et). discriminate.
Qed.

(** With a row that fits every block, [insert_command] raises nothing but
    [IndexError]. *)
Lemma insert_command_Raise_fits (bs : list string) (command : string)
    (row : Z) (e : exn) :
  Forall (row_fits row) bs ->
  insert_command bs command row = Raise e -> e = IndexError.
Proof.
  intros Hfit. induction Hfit as [|b bs Hb _ IH]; [discriminate|].
  rewrite insert_command_cons.
  destruct (insert_in_block command row b) as [b'|e'] eqn:Eb; cbn [bind].
  - destruct (insert_command bs command row); cbn [bind]; [discriminate|].
    intros [= <-]. now apply IH.
  - intros [= <-].
    destruct (insert_in_block_Raise _ _ _ _ Eb) as [->| ->]; [reflexivity|].
    now apply insert_in_block_OverflowError in Eb.
Qed.

Lemma Forall_row_fits_0 (bs : list string) : Forall (row_fits 0) bs.
Proof. apply Forall_forall. intros b _. apply row_fits_0. Qed.

(** X12: the exceptions of [wide_table]: it raises [ZeroDivisionError] when
    the width is 0, and only then; for another width it raises nothing but
    the [IndexError] of a block without a marker line and, when there are
    mid-rules, the [OverflowError] of a mid-rule insertion whose index is no
    machine index. *)
Theorem wide_table_exceptions {column : Type} (to_latex : list column -> string)
    (table : list column) (no_cols : Z) (landscape center : bool)
    (midrules : option (list Z)) (e : exn) :
  wide_table to_latex table no_cols landscape center midrules = Raise e ->
  (no_cols = 0 /\ e = ZeroDivisionError)
  \/ (no_cols <> 0 /\ e = IndexError)
  \/ (no_cols <> 0 /\ e = OverflowError
      /\ exists ms, midrules = Some ms /\ ms <> []).
Proof.
  rewrite wide_table_decorated, decorated_blocks_midrules.
  destruct (Z.eq_dec no_cols 0) as [->|Hne].
  - rewrite generate_subtables_zero. intros [= <-]. now left.
  - destruct (generate_subtables_returns table no_cols Hne) as [subtables ->].
    cbn [bind]. intros H. right.
    assert (G : forall centered,
      (blocks <- insert_midrules
                   (if landscape then wrap_table centered "landscape"
                    else centered)
                   (match midrules with None => [] | Some m => m end) ;;
       Ok (combine_subtables blocks)) = Raise e ->
      e = IndexError
      \/ (e = OverflowError /\ exists ms, midrules = Some ms /\ ms <> [])).
    { intros centered Hm.
      destruct (insert_midrules _ _) as [blocks|e'] eqn:Em; [discriminate|].
      injection Hm as <-.
      apply insert_midrules_Raise in Em as [[->| ->] Hms]; [now left|].
      right. split; [reflexivity|].
      destruct midrules as [ms|]; [now exists ms|contradiction]. }
    destruct center.
    + destruct (insert_command _ "\centering" 0) as [centered|e'] eqn:Ec;
        cbn [bind] in H.
      * destruct (G centered H) as [->|[-> Hms]]; [now left|now right].
      * injection H as <-. left. split; [exact Hne|].
        exact (insert_command_Raise_fits _ _ _ _ (Forall_row_fits_0 _) Ec).
    + cbn [bind] in H.
      destruct (G _ H) as [->|[-> Hms]]; [now left|now right].
Qed.

(** The width 0; a rendering without a marker; a mid-rule offset that is no
    machine index. *)
Lemma wide_table_exceptions_witness :
  wide_table render_nat cols10 0 true true None = Raise ZeroDivisionError
  /\ wide_table (fun _ : list nat => "no marker") cols10 4 false false
                (Some [1])
     = Raise IndexError
  /\ wide_table render_nat cols10 4 true true (Some [2 ^ 63])
     = Raise OverflowError
  /\ ((0 = 0 /\ ZeroDivisionError = ZeroDivisionError)
      \/ (0 <> 0 /\ ZeroDivisionError = IndexError)
      \/ (0 <> 0 /\ ZeroDivisionError = OverflowError
          /\ exists ms, @None (list Z) = Some ms /\ ms <> [])).
Proof.
  split; [reflexivity|]. split; [reflexivity|]. split; [reflexivity|].
  apply (wide_table_exceptions render_nat cols10 0 true true None).
  reflexivity.
Defined.

Lemma wrap_table_length (bs : list string) (container : string) :
  List.length (wrap_table bs container) = List.length bs.
Proof. unfold wrap_table. apply length_map. Qed.

Lemma decorated_blocks_length {column : Type} (to_latex : list column -> string)
    (table : list column) (no_cols : Z) (landscape center : bool)
    (midrules : option (list Z)) (subtables : list (list column))
    (blocks : list string) :
  generate_subtables table no_cols = Ok subtables ->
  decorated_blocks to_latex table no_cols landscape center midrules = Ok blocks ->
  List.length blocks = List.length subtables.
Proof.
  intros E. rewrite decorated_blocks_midrules, E. cbn [bind].
  assert (H : forall centered,
    List.length centered = List.length subtables ->
    insert_midrules
      (if landscape then wrap_table centered "landscape" else centered)
      (match midrules with None => [] | Some m => m end) = Ok blocks ->
    List.length blocks = List.length subtables).
  { intros centered Hc Em. apply insert_midrules_length in Em. rewrite Em.
    destruct landscape; [now rewrite wrap_table_length|exact Hc]. }
  destruct center.
  - destruct (insert_command _ "\centering" 0) as [centered|e] eqn:Ec;
      [|discriminate].
    cbn [bind]. apply H. apply insert_command_length in Ec. rewrite Ec.
    rewrite wrap_table_length. apply length_map.
  - cbn [bind]. apply H. apply length_map.
Qed.

(** X13: for a width other than 0, a rendering that writes in every block,
    within [N] lines, a marker line with a newline after it, and mid-rule
    offsets that stay machine indexes in such blocks, [wide_table] raises
    nothing, whatever the options: it returns the page-broken text of one
    decorated block per partition. *)
Theorem wide_table_block_per_partition {column : Type}
    (to_latex : list column -> string) (table : list column) (no_cols : Z)
    (landscape center : bool) (midrules : option (list Z)) (N : Z) :
  no_cols <> 0 ->
  (forall subtable, ended_within N (to_latex subtable)) ->
  offsets_fit N (match midrules with None => [] | Some m => m end) ->
  exists subtables blocks,
    generate_subtables table no_cols = Ok subtables
    /\ decorated_blocks to_latex table no_cols landscape center midrules
       = Ok blocks
    /\ List.length blocks = List.length subtables
    /\ wide_table to_latex table no_cols landscape center midrules
       = Ok (page_broken blocks).
Proof.
  intros HW Hrender Hms.
  destruct (generate_subtables_returns table no_cols HW) as [subtables E].
  destruct (wide_table_returns to_latex table no_cols landscape center midrules
              N HW Hrender Hms) as [out Hout].
  rewrite wide_table_decorated in *.
  destruct (decorated_blocks to_latex table no_cols landscape center midrules)
    as [blocks|e] eqn:Ed; [|discriminate].
  exists subtables, blocks. split; [exact E|]. split; [reflexivity|].
  split; [exact (decorated_blocks_length _ _ _ _ _ _ _ _ E Ed)|].
  cbn [bind]. now rewrite combine_subtables_page_broken.
Qed.

(** Ten columns, the width -3, no centering, blocks of eight lines, and
    mid-rules far off the block in both directions. *)
Lemma wide_table_block_per_partition_witness :
  exists subtables blocks,
    generate_subtables cols10 (-3) = Ok subtables
    /\ decorated_blocks render_nat cols10 (-3) true false (Some [40; -40])
       = Ok blocks
    /\ List.length blocks = List.length subtables
    /\ wide_table render_nat cols10 (-3) true false (Some [40; -40])
       = Ok (page_broken blocks).
Proof.
  apply (wide_table_block_per_partition render_nat cols10 (-3) true false
           (Some [40; -40]) 8).
  - discriminate.
  - intros subtable. unfold ended_within, toprule_line_ended, toprule.
    vm_compute. intuition discriminate.
  - unfold offsets_fit. repeat constructor; vm_compute; discriminate.
Defined.

Lemma insert_command_no_marker_somewhere (bs : list string) (command : string)
    (row : Z) :
  Exists (fun b => ~ has_toprule b) bs -> Forall (row_fits row) bs ->
  insert_command bs command row = Raise IndexError.
Proof.
  intros H Hfit.
  destruct (insert_command bs command row) as [out|e] eqn:E.
  - exfalso. apply insert_command_Ok in E.
    induction E as [|b b' bs out Hb _ IH]; [inversion H|].
    inversion Hfit; subst.
    inversion H as [? ? Hn|? ? Hn]; subst; [|now apply IH].
    rewrite insert_in_block_no_marker in Hb by assumption. discriminate.
  - f_equal. exact (insert_command_Raise_fits _ _ _ _ Hfit E).
Qed.

(** X14: with [center] on, [wide_table] raises [IndexError] as soon as one
    partition is rendered without a marker line that a newline follows,
    also when the marker is there as the last line of the block:
    [\end{table}] is written onto that line before the marker is looked
    for. *)
Theorem wide_table_center_marker_not_ended {column : Type}
    (to_latex : list column -> string) (table : list column) (no_cols : Z)
    (landscape : bool) (midrules : option (list Z))
    (subtables : list (list column)) :
  generate_subtables table no_cols = Ok subtables ->
  Exists (fun subtable => ~ toprule_line_ended (to_latex subtable)) subtables ->
  wide_table to_latex table no_cols landscape true midrules = Raise IndexError.
Proof.
  intros E H. unfold wide_table. rewrite E. cbn [bind].
  rewrite insert_command_no_marker_somewhere;
    [reflexivity| |apply Forall_row_fits_0].
  rewrite wrap_table_map. unfold latex_subtables. rewrite map_map.
  apply Exists_map. eapply Exists_impl; [|exact H].
  intros p Hp Hw. apply Hp. now apply (has_toprule_wrapped "table") in Hw.
Qed.

(** A rendering that ends with its marker line: with [center] on the call
    raises, with all options off the same call returns. *)
Lemma wide_table_center_marker_not_ended_witness :
  wide_table (fun _ : list nat => ("head" ++ NL ++ "\toprule")%string)
             cols5 7 false true None
  = Raise IndexError
  /\ wide_table (fun _ : list nat => ("head" ++ NL ++ "\toprule")%string)
                cols5 7 false false (Some [0])
     = Ok (page_broken [unlines ["head"; "\midrule"; "\toprule"]]).
Proof.
  split; [|reflexivity].
  apply (wide_table_center_marker_not_ended
           (fun _ : list nat => ("head" ++ NL ++ "\toprule")%string)
           cols5 7 false None [cols5]).
  - reflexivity.
  - apply Exists_cons_hd. unfold toprule_line_ended, toprule. vm_compute.
    intuition discriminate.
Defined.
